(** * ESP32 HomeKit fan controller: a shallow embedding of the control plane

    The development follows the C sources of [esp32_homekit_fan/main]:
    [main.h] (types), [relay.c], [led.c], [homekit.c], [event_handlers.c],
    [main.c] (the consumer loop), [remote.c] (the infrared decoder) and
    [button.c] (the debounced interrupts).

    Conventions.
    - C integers are [Z]; a conversion to a fixed width is written out
      ([uint32], [uint16], [to_int]).
    - The globals the controller task touches are gathered in [World] and
      passed explicitly; every call of [gpio_set_level] and of
      [hap_char_update_val] is recorded in a log, newest call first, so the
      level of a pin is the level of its most recent write.
    - The FreeRTOS event queue is a bounded FIFO, oldest element first. *)

From Stdlib Require Import ZArith List Bool Lia.
Import ListNotations.
Open Scope Z_scope.

(** ** Fixed-width conversions *)

Definition uint32 (z : Z) : Z := z mod 2 ^ 32.
Definition uint16 (z : Z) : Z := z mod 2 ^ 16.
(** [size_t] is 32 bits wide on the ESP32. *)
Definition size_t (z : Z) : Z := z mod 2 ^ 32.
(** The cast [(int) x] of an unsigned 32-bit value. *)
Definition to_int (z : Z) : Z := (z + 2 ^ 31) mod 2 ^ 32 - 2 ^ 31.

(** ** main.h *)

Definition GPIO_LOW : Z := 0.
Definition GPIO_HIGH : Z := 1.

Definition FAN_IR_SENSOR_GPIO : Z := 0.
Definition FAN_PWR_BUTTON_GPIO : Z := 1.
Definition FAN_OSC_BUTTON_GPIO : Z := 2.
Definition FAN_SPEED1_RELAY_GPIO : Z := 3.
Definition FAN_SPEED2_RELAY_GPIO : Z := 4.
Definition FAN_SPEED3_RELAY_GPIO : Z := 5.
Definition FAN_SPEED4_RELAY_GPIO : Z := 6.
Definition FAN_OSC_RELAY_GPIO : Z := 7.
Definition FAN_SPEED1_LED_GPIO : Z := 8.
Definition FAN_SPEED2_LED_GPIO : Z := 9.
Definition FAN_SPEED3_LED_GPIO : Z := 10.
Definition FAN_SPEED4_LED_GPIO : Z := 13.
Definition FAN_BUILTIN_LED_GPIO : Z := 12.

Inductive Event_source : Type :=
| SOURCE_HOMEKIT
| SOURCE_REMOTE
| SOURCE_BUTTON.

Inductive Event_id : Type :=
| ID_POWER
| ID_OSCILLATE
| ID_TIME
| ID_SPEED
| ID_TEMPERATURE.

(** [arg] is a [uint32_t]. *)
Record Fan_event_t : Type := mkEvent {
  source : Event_source;
  id : Event_id;
  arg : Z
}.

(** [enum State_speed].  The handlers do arithmetic on it and cast an
    arbitrary [uint32_t] into it, so a speed is kept as the integer the enum
    stores.  No enumerator is negative, so GCC gives the enum the type
    [unsigned int]. *)
Definition SPEED_OFF : Z := 0.
Definition SPEED_1 : Z := 1.
Definition SPEED_2 : Z := 2.
Definition SPEED_3 : Z := 3.
Definition SPEED_4 : Z := 4.
Definition NUM_SPEED : Z := 5.

Record Fan_state_t : Type := mkFan {
  on : bool;
  oscillate : bool;
  speed : Z
}.

(** ** The smart-home library as the controller sees it *)

Inductive hap_char : Type :=
| on_char
| oscillate_char
| speed_char.

(** [hap_val_t] is a union; [hap_f] holds the float member.  The only floats
    written are [25.0f * n] for a small integer [n], which are exact, so the
    member is kept as that integer. *)
Inductive hap_val_t : Type :=
| hap_b (b : bool)
| hap_f (f : Z).

(** ** The state of the controller task *)

Record World : Type := mkWorld {
  g_Fan_state : Fan_state_t;
  g_Led_enable : bool;
  (** every [gpio_set_level (pin, level)], newest first *)
  gpio_log : list (Z * Z);
  (** every [hap_char_update_val (char, value)], newest first *)
  hap_log : list (hap_char * hap_val_t)
}.

Definition set_Fan_state (f : Fan_state_t) (w : World) : World :=
  {| g_Fan_state := f; g_Led_enable := g_Led_enable w;
     gpio_log := gpio_log w; hap_log := hap_log w |}.

Definition set_on (b : bool) (w : World) : World :=
  set_Fan_state {| on := b; oscillate := oscillate (g_Fan_state w);
                   speed := speed (g_Fan_state w) |} w.

Definition set_oscillate (b : bool) (w : World) : World :=
  set_Fan_state {| on := on (g_Fan_state w); oscillate := b;
                   speed := speed (g_Fan_state w) |} w.

Definition set_speed (s : Z) (w : World) : World :=
  set_Fan_state {| on := on (g_Fan_state w);
                   oscillate := oscillate (g_Fan_state w); speed := s |} w.

Definition set_Led_enable (b : bool) (w : World) : World :=
  {| g_Fan_state := g_Fan_state w; g_Led_enable := b;
     gpio_log := gpio_log w; hap_log := hap_log w |}.

Definition gpio_set_level (gpio_num level : Z) (w : World) : World :=
  {| g_Fan_state := g_Fan_state w; g_Led_enable := g_Led_enable w;
     gpio_log := (gpio_num, level) :: gpio_log w; hap_log := hap_log w |}.

Definition hap_char_update_val (hc : hap_char) (v : hap_val_t) (w : World)
  : World :=
  {| g_Fan_state := g_Fan_state w; g_Led_enable := g_Led_enable w;
     gpio_log := gpio_log w; hap_log := (hc, v) :: hap_log w |}.

(** The level a pin is driven to: that of its most recent write. *)
Fixpoint gpio_level (log : list (Z * Z)) (gpio_num : Z) : option Z :=
  match log with
  | [] => None
  | (p, l) :: rest => if p =? gpio_num then Some l else gpio_level rest gpio_num
  end.

(** [for (i = 0; i < n; i++) gpio_set_level (pins[i], level)] *)
Definition gpio_set_levels (pins : list Z) (level : Z) (w : World) : World :=
  fold_left (fun acc p => gpio_set_level p level acc) pins w.

(** ** relay.c *)

Definition NUM_SPEED_RELAY : nat := 4.
Definition NUM_TOTAL_RELAY : nat := 5.

Definition relays : list Z :=
  [FAN_SPEED1_RELAY_GPIO; FAN_SPEED2_RELAY_GPIO; FAN_SPEED3_RELAY_GPIO;
   FAN_SPEED4_RELAY_GPIO; FAN_OSC_RELAY_GPIO].

Definition Relay_write_speed (sp : Z) (w : World) : World :=
  if (speed (g_Fan_state w) =? sp) && eqb true (on (g_Fan_state w)) then
    (* Nothing to do! *)
    w
  else
    (* Disable all speed relays *)
    let w1 := gpio_set_levels (firstn NUM_SPEED_RELAY relays) GPIO_HIGH w in
    (* Figure out which relay to turn on *)
    if sp =? SPEED_OFF then w1
    else if sp =? SPEED_1 then gpio_set_level FAN_SPEED1_RELAY_GPIO GPIO_LOW w1
    else if sp =? SPEED_2 then gpio_set_level FAN_SPEED2_RELAY_GPIO GPIO_LOW w1
    else if sp =? SPEED_3 then gpio_set_level FAN_SPEED3_RELAY_GPIO GPIO_LOW w1
    else if sp =? SPEED_4 then gpio_set_level FAN_SPEED4_RELAY_GPIO GPIO_LOW w1
    else (* Invalid speed provided, leaving all off... *) w1.

Definition Relay_write_oscillate (osc : bool) (w : World) : World :=
  gpio_set_level FAN_OSC_RELAY_GPIO (if osc then GPIO_LOW else GPIO_HIGH) w.

Definition Relay_init (w : World) : World :=
  gpio_set_levels (firstn NUM_TOTAL_RELAY relays) GPIO_HIGH w.

(** ** led.c *)

Definition NUM_SPEED_LED : nat := 4.
Definition NUM_TOTAL_LED : nat := 5.

Definition leds : list Z :=
  [FAN_SPEED1_LED_GPIO; FAN_SPEED2_LED_GPIO; FAN_SPEED3_LED_GPIO;
   FAN_SPEED4_LED_GPIO; FAN_BUILTIN_LED_GPIO].

Definition Led_write_enable (enable : bool) (w : World) : World :=
  let w1 := set_Led_enable enable w in
  if negb (g_Led_enable w1) then
    (* If LEDs were just disabled, clear them all *)
    gpio_set_levels (firstn NUM_SPEED_LED leds) GPIO_LOW w1
  else w1.

Definition Led_write_speed (sp : Z) (w : World) : World :=
  if negb (g_Led_enable w) then
    (* Nothing to do! *)
    w
  else
    (* Disable all speed LEDs *)
    let w1 := gpio_set_levels (firstn NUM_SPEED_LED leds) GPIO_LOW w in
    if sp =? SPEED_OFF then w1
    else if sp =? SPEED_1 then gpio_set_level FAN_SPEED1_LED_GPIO GPIO_HIGH w1
    else if sp =? SPEED_2 then gpio_set_level FAN_SPEED2_LED_GPIO GPIO_HIGH w1
    else if sp =? SPEED_3 then gpio_set_level FAN_SPEED3_LED_GPIO GPIO_HIGH w1
    else if sp =? SPEED_4 then gpio_set_level FAN_SPEED4_LED_GPIO GPIO_HIGH w1
    else w1.

Definition Led_write_builtin (state : bool) (w : World) : World :=
  gpio_set_level FAN_BUILTIN_LED_GPIO (if state then GPIO_HIGH else GPIO_LOW) w.

Definition Led_init (w : World) : World :=
  set_Led_enable true (gpio_set_levels (firstn NUM_TOTAL_LED leds) GPIO_LOW w).

(** ** homekit.c *)

Definition HomeKit_update_char (w : World) : World :=
  (* Update the power state *)
  let w1 := hap_char_update_val on_char (hap_b (on (g_Fan_state w))) w in
  (* Update the oscillation state *)
  let w2 :=
    hap_char_update_val oscillate_char (hap_b (oscillate (g_Fan_state w1))) w1 in
  (* Update the speed state, using 25 multiplier as we only have 4 speeds *)
  hap_char_update_val speed_char (hap_f (25 * speed (g_Fan_state w2))) w2.

(** What [HomeKit_write_callback] receives for one characteristic: the
    characteristic written and its value ([val.b] for the two booleans,
    [(int) val.f] for the rotation speed).  [write_unknown] stands for a
    characteristic that is none of the three. *)
Inductive hap_write : Type :=
| write_on (b : bool)
| write_swing_mode (b : bool)
| write_rotation_speed (integer_speed : Z)
| write_unknown.

(** The event [HomeKit_write_callback] builds for one write. *)
Definition HomeKit_write_event (wr : hap_write) : option Fan_event_t :=
  match wr with
  | write_on b =>
      Some {| source := SOURCE_HOMEKIT; id := ID_POWER; arg := Z.b2z b |}
  | write_swing_mode b =>
      Some {| source := SOURCE_HOMEKIT; id := ID_OSCILLATE; arg := Z.b2z b |}
  | write_rotation_speed integer_speed =>
      (* Bin the speed for easier processing later *)
      let a :=
        if 0 =? integer_speed then SPEED_OFF
        else if integer_speed <=? 25 then SPEED_1
        else if integer_speed <=? 50 then SPEED_2
        else if integer_speed <=? 75 then SPEED_3
        else SPEED_4 in
      Some {| source := SOURCE_HOMEKIT; id := ID_SPEED; arg := uint32 a |}
  | write_unknown => None
  end.

(** ** event_handlers.c *)

Definition handle_homekit (event : Fan_event_t) (w : World) : World :=
  match id event with
  | ID_POWER =>
      let v := negb (arg event =? 0) in
      if eqb (on (g_Fan_state w)) v then
        (* Ignore redundant power events (ON->ON or OFF->OFF) *)
        w
      else
        let w1 :=
          Relay_write_speed (if v then speed (g_Fan_state w) else SPEED_OFF) w in
        let w2 :=
          Relay_write_oscillate
            (if v then oscillate (g_Fan_state w1) else false) w1 in
        set_on v w2
  | ID_OSCILLATE =>
      let v := negb (arg event =? 0) in
      let w1 := if on (g_Fan_state w) then Relay_write_oscillate v w else w in
      set_oscillate v w1
  | ID_SPEED =>
      if SPEED_OFF =? arg event then
        (* leave handling to the power event *)
        w
      else
        let w1 :=
          if on (g_Fan_state w) then Relay_write_speed (arg event) w else w in
        set_speed (arg event) w1
  | _ => (* Unhandled event ID *) w
  end.

(** In [handle_button] the next speed is computed in [unsigned int], the type
    of the enum; for a stored speed of 1 or more the result is the same in
    [int]. *)
Definition handle_button (event : Fan_event_t) (w : World) : World :=
  let w' :=
    match id event with
    | ID_POWER =>
        let next_speed :=
          uint32 (uint32 (speed (g_Fan_state w) - 1) mod NUM_SPEED
                  + Z.b2z (negb (on (g_Fan_state w)))) in
        (* Update the speed relays *)
        let w1 := Relay_write_speed next_speed w in
        (* Update the oscillation relay *)
        let w2 :=
          Relay_write_oscillate
            (if negb (SPEED_OFF =? next_speed) then oscillate (g_Fan_state w1)
             else false) w1 in
        (* Update the global state and finish *)
        let w3 :=
          set_speed (if negb (SPEED_OFF =? next_speed) then next_speed
                     else SPEED_4) w2 in
        set_on (negb (SPEED_OFF =? next_speed)) w3
    | ID_OSCILLATE =>
        let w1 :=
          if on (g_Fan_state w)
          then Relay_write_oscillate (negb (oscillate (g_Fan_state w))) w
          else w in
        set_oscillate (negb (oscillate (g_Fan_state w1))) w1
    | _ => (* Unhandled event ID *) w
    end in
  (* Event triggered by hardware, report hardware changes to HomeKit *)
  HomeKit_update_char w'.

Definition handle_remote (event : Fan_event_t) (w : World) : World :=
  let w' :=
    match id event with
    | ID_POWER =>
        (* Either turn off the fan or set it to the previous speed *)
        let w1 :=
          Relay_write_speed
            (if on (g_Fan_state w) then SPEED_OFF else speed (g_Fan_state w)) w in
        (* Either turn off oscillation or set it to the previous state *)
        let w2 :=
          Relay_write_oscillate
            (if on (g_Fan_state w1) then false else oscillate (g_Fan_state w1))
            w1 in
        set_on (negb (on (g_Fan_state w2))) w2
    | ID_OSCILLATE =>
        let w1 :=
          if on (g_Fan_state w)
          then Relay_write_oscillate (negb (oscillate (g_Fan_state w))) w
          else w in
        set_oscillate (negb (oscillate (g_Fan_state w1))) w1
    | ID_SPEED =>
        if negb (on (g_Fan_state w)) then
          (* We only accept speed events when the fan is on *)
          w
        else
          let next_speed :=
            uint32
              (Z.rem (to_int (speed (g_Fan_state w)) - 1 - 1 + SPEED_4) SPEED_4
               + 1) in
          let w1 := Relay_write_speed next_speed w in
          set_speed next_speed w1
    | ID_TIME | ID_TEMPERATURE =>
        Led_write_enable (negb (g_Led_enable w)) w
    end in
  (* Update HomeKit with whatever happened *)
  HomeKit_update_char w'.

(** ** main.c *)

(** One turn of the loop of [Lasko_event_handler], for the event the queue
    delivered. *)
Definition Lasko_event_handler (event : Fan_event_t) (w : World) : World :=
  let w1 := Led_write_builtin true w in
  let w2 :=
    match source event with
    | SOURCE_HOMEKIT => handle_homekit event w1
    | SOURCE_BUTTON => handle_button event w1
    | SOURCE_REMOTE => handle_remote event w1
    end in
  (* Update the front-fascia LEDs with any changes *)
  let w3 :=
    Led_write_speed
      (if on (g_Fan_state w2) then speed (g_Fan_state w2) else SPEED_OFF) w2 in
  Led_write_builtin false w3.

(** The loop over the events in the order the queue delivers them. *)
Definition run_events (events : list Fan_event_t) (w : World) : World :=
  fold_left (fun acc e => Lasko_event_handler e acc) events w.

(** The globals before [app_main]: static storage is zeroed, no pin has been
    written. *)
Definition power_on : World :=
  {| g_Fan_state := {| on := false; oscillate := false; speed := 0 |};
     g_Led_enable := false; gpio_log := []; hap_log := [] |}.

(** [app_main], as far as the controller state goes: the output hardware is
    initialised, then the fan state. *)
Definition app_main (w : World) : World :=
  let w1 := Relay_init w in
  let w2 := Led_init w1 in
  set_Fan_state {| on := false; oscillate := false; speed := SPEED_4 |} w2.

Definition boot : World := app_main power_on.

(** ** The event queue *)

(** [xQueueCreate (10, sizeof (Fan_event_t))] *)
Definition QUEUE_LENGTH : nat := 10.

(** [xQueueSend] and [xQueueSendFromISR] append when there is room and leave
    the queue alone when it is full (the bounded wait of [xQueueSend] is over
    without room).  The callers ignore the status. *)
Definition xQueueSend (q : list Fan_event_t) (event : Fan_event_t)
  : list Fan_event_t :=
  if (length q <? QUEUE_LENGTH)%nat then q ++ [event] else q.

Definition xQueueSendFromISR := xQueueSend.

(** ** remote.c *)

Definition IR_CODE_POWER : Z := 0x13F.
Definition IR_CODE_OSCILLATE : Z := 0x13B.
Definition IR_CODE_SPEED : Z := 0x13D.
Definition IR_CODE_TIME : Z := 0x13E.
Definition IR_CODE_TEMPERATURE : Z := 0x12F.

Definition NUM_SYMBOL_EXPECTED : Z := 11.
Definition RMT_MAX_MEM_SYMBOLS : Z := 48.
Definition DURATION_ERROR_MARGIN : Z := 200.
Definition DURATION_SHORT : Z := 400.
Definition DURATION_LONG : Z := 1200.

(** [rmt_symbol_word_t]: the two durations of a mark/space pair, in
    microseconds.  The level bits are not read by the decoder. *)
Record rmt_symbol_word_t : Type := mkSymbol {
  duration0 : Z;
  duration1 : Z
}.

Definition check_in_range (signal_duration spec_duration : Z) : bool :=
  (signal_duration <? uint32 (spec_duration + DURATION_ERROR_MARGIN))
  && (signal_duration >? uint32 (spec_duration - DURATION_ERROR_MARGIN)).

Definition parse_logic0 (symbol : rmt_symbol_word_t) : bool :=
  check_in_range (duration0 symbol) DURATION_LONG
  && check_in_range (duration1 symbol) DURATION_SHORT.

Definition parse_logic1 (symbol : rmt_symbol_word_t) : bool :=
  check_in_range (duration0 symbol) DURATION_SHORT
  && check_in_range (duration1 symbol) DURATION_LONG.

(** The [switch] of [is_command]: the event ID of a code, if it has one. *)
Definition command_id (ir_code : Z) : option Event_id :=
  if ir_code =? IR_CODE_POWER then Some ID_POWER
  else if ir_code =? IR_CODE_OSCILLATE then Some ID_OSCILLATE
  else if ir_code =? IR_CODE_SPEED then Some ID_SPEED
  else if ir_code =? IR_CODE_TIME then Some ID_TIME
  else if ir_code =? IR_CODE_TEMPERATURE then Some ID_TEMPERATURE
  else None.

(** [Fan_event_t event = { .source = SOURCE_REMOTE }] with its ID set. *)
Definition remote_event (i : Event_id) : Fan_event_t :=
  {| source := SOURCE_REMOTE; id := i; arg := 0 |}.

(** [is_command] returns whether the code is a command and, if so, has sent
    the event to the main queue. *)
Definition is_command (ir_code : Z) (q : list Fan_event_t)
  : bool * list Fan_event_t :=
  match command_id ir_code with
  | Some i => (true, xQueueSend q (remote_event i))
  | None => (false, q)
  end.

(** The locals of [parse_ir_code] together with the queue.  [shift_log]
    records the right operand of every [1 << ...] evaluated, newest first. *)
Record decoder : Type := mkDecoder {
  ir_code : Z;
  bit_index : Z;
  queue : list Fan_event_t;
  shift_log : list Z
}.

(** How [parse_ir_code] leaves. *)
Inductive decode_exit : Type :=
| Exit_noise            (* the frame does not have 48 symbols *)
| Exit_bad_symbol       (* a symbol is neither logic 1 nor logic 0 *)
| Exit_end_of_frame     (* the loop ran over all symbols *)
| Exit_undefined_shift. (* [1 << n] with [n] outside the width of [int] *)

(** [1 << n] on a 32-bit [int] is defined for [0 <= n < 31]. *)
Definition shift_defined (n : Z) : bool := (0 <=? n) && (n <? 31).

(** The body of the [for] loop for one symbol: [inl] to go on with the next
    symbol, [inr] when the function is left here. *)
Definition parse_symbol (symbol : rmt_symbol_word_t) (d : decoder)
  : decoder + (decode_exit * decoder) :=
  let classified : decoder + (decode_exit * decoder) :=
    if parse_logic1 symbol then
      (* Set the bit, since this is logic 1 *)
      let n := size_t (NUM_SYMBOL_EXPECTED - bit_index d - 1) in
      let d1 := {| ir_code := ir_code d; bit_index := bit_index d;
                   queue := queue d; shift_log := n :: shift_log d |} in
      if shift_defined n then
        inl {| ir_code := uint16 (Z.lor (ir_code d1) (Z.shiftl 1 n));
               bit_index := bit_index d1; queue := queue d1;
               shift_log := shift_log d1 |}
      else inr (Exit_undefined_shift, d1)
    else if negb (parse_logic0 symbol) then
      (* Bad RMT symbols, exit *)
      inr (Exit_bad_symbol, d)
    else inl d in
  match classified with
  | inr e => inr e
  | inl d1 =>
      let d2 := {| ir_code := ir_code d1;
                   bit_index := size_t (bit_index d1 + 1);
                   queue := queue d1; shift_log := shift_log d1 |} in
      (* Check whether we have a command! *)
      if NUM_SYMBOL_EXPECTED =? bit_index d2 then
        let (valid, q) := is_command (ir_code d2) (queue d2) in
        if negb valid then
          (* If it was not a valid command, reset counters *)
          inl {| ir_code := 0; bit_index := 0; queue := q;
                 shift_log := shift_log d2 |}
        else
          (* If IR code was valid, event has been sent! *)
          inl {| ir_code := ir_code d2; bit_index := bit_index d2;
                 queue := q; shift_log := shift_log d2 |}
      else inl d2
  end.

(** The [for] loop over the symbols still to be read. *)
Fixpoint parse_symbols (rmt_symbols : list rmt_symbol_word_t) (d : decoder)
  : decode_exit * decoder :=
  match rmt_symbols with
  | [] => (Exit_end_of_frame, d)
  | symbol :: rest =>
      match parse_symbol symbol d with
      | inl d' => parse_symbols rest d'
      | inr e => e
      end
  end.

(** [parse_ir_code (rmt_symbols, num_symbols)], the array given as the list
    of its [num_symbols] symbols, run against the queue [q]; [decoder_init]
    holds the initial values of the locals. *)
Definition decoder_init (q : list Fan_event_t) : decoder :=
  {| ir_code := 0; bit_index := 0; queue := q; shift_log := [] |}.

Definition parse_ir_code (rmt_symbols : list rmt_symbol_word_t)
  (q : list Fan_event_t) : decode_exit * decoder :=
  if negb (RMT_MAX_MEM_SYMBOLS =? Z.of_nat (length rmt_symbols)) then
    (* We expect to fill up the buffer with valid presses, all else is noise *)
    (Exit_noise, decoder_init q)
  else parse_symbols rmt_symbols (decoder_init q).

(** ** button.c *)

Definition NUM_USEC_IN_MSEC : Z := 1000.
Definition MIN_TIME_BETWEEN_PRESS : Z := 250 * NUM_USEC_IN_MSEC.

(** What the interrupts touch: the debounce clock, which the two of them
    share, and the queue.  Times are microseconds since the epoch, as
    [gettimeofday] gives them; they are non-negative and far below [2 ^ 63],
    so the [int64_t] difference is the difference of the integers. *)
Record button_state : Type := mkButtons {
  prev_time_us : Z;
  button_queue : list Fan_event_t
}.

(** [Fan_event_t event = { .source = SOURCE_BUTTON, .id = ... }] *)
Definition button_event (i : Event_id) : Fan_event_t :=
  {| source := SOURCE_BUTTON; id := i; arg := 0 |}.

(** The test both routines start with. *)
Definition is_bounce (time_us : Z) (b : button_state) : bool :=
  time_us - prev_time_us b <? MIN_TIME_BETWEEN_PRESS.

(** [time_us] is the time [gettimeofday] gives the routine. *)
Definition power_interrupt (time_us : Z) (b : button_state) : button_state :=
  if is_bounce time_us b then
    (* If the required amount of time hasn't elapsed, this is a bounce! *)
    b
  else
    {| (* Simple power event to send to the main task *)
       button_queue :=
         xQueueSendFromISR (button_queue b) (button_event ID_POWER);
       (* Update the previous time now *)
       prev_time_us := time_us |}.

Definition oscillate_interrupt (time_us : Z) (b : button_state)
  : button_state :=
  if is_bounce time_us b then
    (* If the required amount of time hasn't elapsed, this is a bounce! *)
    b
  else
    {| (* Simple oscillation event to send to the main task *)
       button_queue :=
         xQueueSendFromISR (button_queue b) (button_event ID_OSCILLATE);
       (* Update the previous time now *)
       prev_time_us := time_us |}.

(** [Button_init] takes the current time as the first value of the clock. *)
Definition Button_init (time_us : Z) (q : list Fan_event_t) : button_state :=
  {| prev_time_us := time_us; button_queue := q |}.

(** ** Vocabulary of the specification *)

(** *** Actuators *)

(** A speed relay is asserted when its pin is driven low (active-low). *)
Definition asserted (log : list (Z * Z)) (gpio_num : Z) : bool :=
  match gpio_level log gpio_num with
  | Some l => l =? GPIO_LOW
  | None => false
  end.

Definition speed_relays : list Z := firstn NUM_SPEED_RELAY relays.

Definition asserted_count (log : list (Z * Z)) : nat :=
  length (filter (asserted log) speed_relays).

(** [P] holds after every write of the log, and before the first one. *)
Fixpoint at_every_point (P : list (Z * Z) -> Prop) (log : list (Z * Z))
  : Prop :=
  match log with
  | [] => P []
  | write :: earlier => P (write :: earlier) /\ at_every_point P earlier
  end.

(** At no point are two speed relays asserted together. *)
Definition relay_safe (log : list (Z * Z)) : Prop :=
  at_every_point (fun l => (asserted_count l <= 1)%nat) log.

(** The controller states whose pin history is safe. *)
Definition Safe (w : World) : Prop := relay_safe (gpio_log w).

(** The four writes that clear the speed relays, newest first. *)
Definition speed_relays_cleared : list (Z * Z) :=
  [(FAN_SPEED4_RELAY_GPIO, GPIO_HIGH); (FAN_SPEED3_RELAY_GPIO, GPIO_HIGH);
   (FAN_SPEED2_RELAY_GPIO, GPIO_HIGH); (FAN_SPEED1_RELAY_GPIO, GPIO_HIGH)].

(** The writes of [setSpeed (sp)] for a speed of 1 to 4: all cleared, then
    the relay of the speed asserted. *)
Definition speed_written (sp : Z) (log : list (Z * Z)) : list (Z * Z) :=
  (nth (Z.to_nat (sp - 1)) relays 0, GPIO_LOW) :: speed_relays_cleared ++ log.

(** The writes of [setSpeed (Off)]. *)
Definition speed_off_written (log : list (Z * Z)) : list (Z * Z) :=
  speed_relays_cleared ++ log.

(** The write of [setOscillate (osc)]. *)
Definition oscillate_written (osc : bool) (log : list (Z * Z))
  : list (Z * Z) :=
  (FAN_OSC_RELAY_GPIO, if osc then GPIO_LOW else GPIO_HIGH) :: log.

(** [publish (FanState)]: the three values mirrored outward. *)
Definition published (f : Fan_state_t) (log : list (hap_char * hap_val_t))
  : list (hap_char * hap_val_t) :=
  (speed_char, hap_f (25 * speed f)) :: (oscillate_char, hap_b (oscillate f))
  :: (on_char, hap_b (on f)) :: log.

(** *** Transition rules *)

(** Next-lower speed with wraparound 4, 3, 2, 1, 4. *)
Definition next_lower_speed (s : Z) : Z :=
  if s =? SPEED_1 then SPEED_4 else s - 1.

Definition valid_speed (s : Z) : Prop := SPEED_1 <= s <= SPEED_4.

(** The events the three producers can put on the queue. *)
Inductive produced : Fan_event_t -> Prop :=
| produced_power_button : produced (button_event ID_POWER)
| produced_oscillate_button : produced (button_event ID_OSCILLATE)
| produced_remote (c : Z) (i : Event_id) :
    command_id c = Some i -> produced (remote_event i)
| produced_homekit (wr : hap_write) (e : Fan_event_t) :
    HomeKit_write_event wr = Some e -> produced e.

(** The states of the controller task after any number of commands. *)
Inductive reachable : World -> Prop :=
| reachable_boot : reachable boot
| reachable_step (e : Fan_event_t) (w : World) :
    produced e -> reachable w -> reachable (Lasko_event_handler e w).

(** *** Infrared frames *)

(** The bit a mark/space pair stands for, if any. *)
Definition classify (symbol : rmt_symbol_word_t) : option bool :=
  if parse_logic1 symbol then Some true
  else if parse_logic0 symbol then Some false
  else None.

(** Bits accumulated most-significant-first. *)
Definition bits_msb_first_from (acc : Z) (bits : list bool) : Z :=
  fold_left (fun a b => 2 * a + Z.b2z b) bits acc.

Definition bits_msb_first (bits : list bool) : Z := bits_msb_first_from 0 bits.

(** The five codes of the remote. *)
Definition ir_codes : list (Z * Event_id) :=
  [(0x13F, ID_POWER); (0x13B, ID_OSCILLATE); (0x13D, ID_SPEED);
   (0x13E, ID_TIME); (0x12F, ID_TEMPERATURE)].

(** A duration within the tolerance of a template, bounds included. *)
Definition within_tolerance (d template : Z) : Prop :=
  Z.abs (d - template) <= DURATION_ERROR_MARGIN.

(** A duration within the tolerance of a template, bounds excluded. *)
Definition strictly_within_tolerance (d template : Z) : Prop :=
  Z.abs (d - template) < DURATION_ERROR_MARGIN.

Definition logic_one : rmt_symbol_word_t :=
  {| duration0 := DURATION_SHORT; duration1 := DURATION_LONG |}.

Definition logic_zero : rmt_symbol_word_t :=
  {| duration0 := DURATION_LONG; duration1 := DURATION_SHORT |}.

(** The pairs of a bit string, each at its nominal timing. *)
Definition pairs_of_bits (bits : list bool) : list rmt_symbol_word_t :=
  map (fun b : bool => if b then logic_one else logic_zero) bits.

(** The eleven bits of a code, most significant first. *)
Definition bits_of_code (code : Z) : list bool :=
  map (fun k => Z.testbit code (Z.of_nat k)) (rev (seq 0 11)).

(** *** Button edges *)

Inductive button : Type :=
| Power_button
| Oscillate_button.

Definition button_id (b : button) : Event_id :=
  match b with
  | Power_button => ID_POWER
  | Oscillate_button => ID_OSCILLATE
  end.

(** A rising edge on a button at a time. *)
Definition edge : Type := (button * Z)%type.

Definition interrupt (e : edge) (s : button_state) : button_state :=
  match fst e with
  | Power_button => power_interrupt (snd e) s
  | Oscillate_button => oscillate_interrupt (snd e) s
  end.

Definition run_edges (edges : list edge) (s : button_state) : button_state :=
  fold_left (fun acc e => interrupt e acc) edges s.

(** For each edge in turn, whether its interrupt took it for a bounce. *)
Fixpoint bounces (edges : list edge) (s : button_state) : list bool :=
  match edges with
  | [] => []
  | e :: rest => is_bounce (snd e) s :: bounces rest (interrupt e s)
  end.

(** Every edge comes at least the debounce window after the one before it,
    the first one that long after [clock]. *)
Fixpoint well_spaced (clock : Z) (edges : list edge) : Prop :=
  match edges with
  | [] => True
  | e :: rest =>
      MIN_TIME_BETWEEN_PRESS <= snd e - clock /\ well_spaced (snd e) rest
  end.

(** *** Example inputs *)

(** Two presses of the power button 300 ms apart, a press of the
    oscillate button between them, 40 ms before the second; times in
    microseconds after [Button_init]. *)
Definition crossed_edges : list edge :=
  [(Power_button, 300000); (Oscillate_button, 560000);
   (Power_button, 600000)].

(** Two presses of the power button 250 ms apart. *)
Definition spaced_edges : list edge :=
  [(Power_button, 300000); (Power_button, 550000)].

(** A pair far off both templates. *)
Definition corrupted_pair : rmt_symbol_word_t :=
  {| duration0 := 5000; duration1 := 5000 |}.

(** The pairs of the Power code at their nominal timing. *)
Definition power_pairs : list rmt_symbol_word_t :=
  pairs_of_bits (bits_of_code IR_CODE_POWER).

(** A frame padded to 48 pairs with logic zeros. *)
Definition padded (pairs : list rmt_symbol_word_t) : list rmt_symbol_word_t :=
  pairs ++ repeat logic_zero (48 - length pairs).

(** The controller right after boot, with a given fan state. *)
Definition boot_with (f : Fan_state_t) : World := set_Fan_state f boot.

Definition fan_on_at (s : Z) : Fan_state_t :=
  {| on := true; oscillate := false; speed := s |}.

(** ** homekit.c: the write callback *)

Inductive hap_status_t : Type :=
| HAP_STATUS_SUCCESS
| HAP_STATUS_RES_ABSENT.

(** The value a callback returns. *)
Inductive hap_ret : Type :=
| HAP_SUCCESS
| HAP_FAIL.

(** What [HomeKit_write_callback] leaves behind: the status written for each
    write it looked at, in their order; the writes it passed on to
    [hap_char_update_val], in their order; and the event queue. *)
Record write_effects : Type := mkEffects {
  write_status : list hap_status_t;
  hap_updated : list hap_write;
  event_queue : list Fan_event_t
}.

(** The [for] loop of [HomeKit_write_callback] over the writes still to be
    looked at. *)
Fixpoint HomeKit_write_callback (write_data : list hap_write)
  (st : write_effects) : hap_ret * write_effects :=
  match write_data with
  | [] => (HAP_SUCCESS, st)
  | write :: rest =>
      match HomeKit_write_event write with
      | None =>
          (* Unknown HAP characteristic passed in *)
          (HAP_FAIL,
           {| write_status := write_status st ++ [HAP_STATUS_RES_ABSENT];
              hap_updated := hap_updated st;
              event_queue := event_queue st |})
      | Some event =>
          HomeKit_write_callback rest
            {| (* Update the value in the HAP internals *)
               hap_updated := hap_updated st ++ [write];
               write_status := write_status st ++ [HAP_STATUS_SUCCESS];
               (* Send the event to the main queue *)
               event_queue := xQueueSend (event_queue st) event |}
      end
  end.

(** ** lasko.c, the earlier prototype *)

(** The status codes of the prototype's callbacks. *)
Inductive lasko_status_t : Type :=
| LASKO_STATUS_SUCCESS
| LASKO_STATUS_RES_ABSENT
| LASKO_STATUS_VAL_INVALID.

(** One element of [write_data]: the characteristic written and the member
    of the value the callback reads for it ([val.b], [val.i], [(int)
    val.f]). *)
Inductive lasko_write : Type :=
| lasko_on (b : bool)
| lasko_rotation_direction (i : Z)
| lasko_rotation_speed (speed_value : Z)
| lasko_other.

(** What [fan_write] leaves behind: the status of each write, in their
    order, and the writes passed on to [hap_char_update_val], in their
    order. *)
Record lasko_effects : Type := mkLaskoEffects {
  lasko_status : list lasko_status_t;
  lasko_updated : list lasko_write
}.

(** The [for] loop of [fan_write], with [ret] as it stands. *)
Fixpoint fan_write_loop (write_data : list lasko_write) (ret : hap_ret)
  (st : lasko_effects) : hap_ret * lasko_effects :=
  match write_data with
  | [] => (ret, st)
  | write :: rest =>
      match write with
      | lasko_on b =>
          fan_write_loop rest ret
            {| lasko_updated := lasko_updated st ++ [write];
               lasko_status := lasko_status st ++ [LASKO_STATUS_SUCCESS] |}
      | lasko_rotation_direction i =>
          if i >? 1 then
            fan_write_loop rest HAP_FAIL
              {| lasko_updated := lasko_updated st;
                 lasko_status :=
                   lasko_status st ++ [LASKO_STATUS_VAL_INVALID] |}
          else
            fan_write_loop rest ret
              {| lasko_updated := lasko_updated st ++ [write];
                 lasko_status := lasko_status st ++ [LASKO_STATUS_SUCCESS] |}
      | lasko_rotation_speed speed_value =>
          if 0 =? speed_value then
            (* Speed: 0 (IGNORING); continue *)
            fan_write_loop rest ret
              {| lasko_updated := lasko_updated st;
                 lasko_status := lasko_status st ++ [LASKO_STATUS_SUCCESS] |}
          else
            (* the bins are only logged *)
            fan_write_loop rest ret
              {| lasko_updated := lasko_updated st;
                 lasko_status := lasko_status st ++ [LASKO_STATUS_SUCCESS] |}
      | lasko_other =>
          (* Unknown HAP char passed in *)
          fan_write_loop rest ret
            {| lasko_updated := lasko_updated st;
               lasko_status :=
                 lasko_status st ++ [LASKO_STATUS_RES_ABSENT] |}
      end
  end.

Definition fan_write (write_data : list lasko_write)
  : hap_ret * lasko_effects :=
  fan_write_loop write_data HAP_SUCCESS
    {| lasko_status := []; lasko_updated := [] |}.

(** [fan_read] on a characteristic holding [cur_val]: the value it holds
    afterwards and the status written, if any. *)
Definition fan_read (is_rotation_direction : bool) (cur_val : Z)
  : hap_ret * Z * option lasko_status_t :=
  if is_rotation_direction then
    let new_val := if cur_val =? 1 then 0 else 1 in
    (HAP_SUCCESS, new_val, Some LASKO_STATUS_SUCCESS)
  else (HAP_SUCCESS, cur_val, None).

(** ** Further vocabulary *)

(** An indicator LED is lit when its pin is driven high. *)
Definition lit (log : list (Z * Z)) (gpio_num : Z) : bool :=
  match gpio_level log gpio_num with
  | Some l => l =? GPIO_HIGH
  | None => false
  end.

Definition speed_leds : list Z := firstn NUM_SPEED_LED leds.

Definition speeds : list Z := [SPEED_1; SPEED_2; SPEED_3; SPEED_4].

(** The relays show the fan state: the relay of the stored speed is asserted
    when the fan is on and no other speed relay is; the oscillation relay is
    asserted when the fan is on and set to oscillate. *)
Definition relays_mirror (w : World) : Prop :=
  map (asserted (gpio_log w)) speed_relays
  = map (fun k => on (g_Fan_state w) && (speed (g_Fan_state w) =? k)) speeds
  /\ asserted (gpio_log w) FAN_OSC_RELAY_GPIO
     = on (g_Fan_state w) && oscillate (g_Fan_state w).

(** The indicators show the fan state while they are enabled and are dark
    while they are not; the built-in LED is off. *)
Definition leds_mirror (w : World) : Prop :=
  map (lit (gpio_log w)) speed_leds
  = map (fun k => g_Led_enable w && on (g_Fan_state w)
                  && (speed (g_Fan_state w) =? k)) speeds
  /\ lit (gpio_log w) FAN_BUILTIN_LED_GPIO = false.

(** The state after boot and one press of the power button. *)
Definition after_one_press : World :=
  Lasko_event_handler (button_event ID_POWER) boot.

(** The pins the handlers drive: the five relays and the four speed LEDs. *)
Definition handler_pins : list Z := relays ++ speed_leds.

(** A write of a handler: to one of its pins, with a logic level. *)
Definition handler_write (x : Z * Z) : Prop :=
  In (fst x) handler_pins /\ (snd x = GPIO_LOW \/ snd x = GPIO_HIGH).

(** A write to one of the ten output pins, with a logic level. *)
Definition output_write (x : Z * Z) : Prop :=
  In (fst x) (relays ++ leds) /\ (snd x = GPIO_LOW \/ snd x = GPIO_HIGH).

(** [w'] has the pin history of [w] and after it only writes of handlers. *)
Definition grows (w w' : World) : Prop :=
  exists mid, gpio_log w' = mid ++ gpio_log w /\ Forall handler_write mid.

(** The six orders of three commands. *)
Definition orders3 {A : Type} (a b c : A) : list (list A) :=
  [[a; b; c]; [a; c; b]; [b; a; c]; [b; c; a]; [c; a; b]; [c; b; a]].

(** The events of HomeKit. *)
Definition homekit_power (v : bool) : Fan_event_t :=
  {| source := SOURCE_HOMEKIT; id := ID_POWER; arg := Z.b2z v |}.

Definition homekit_oscillate (v : bool) : Fan_event_t :=
  {| source := SOURCE_HOMEKIT; id := ID_OSCILLATE; arg := Z.b2z v |}.

Definition homekit_speed (s : Z) : Fan_event_t :=
  {| source := SOURCE_HOMEKIT; id := ID_SPEED; arg := s |}.

(** The events of a list of writes, one for each. *)
Definition events_of (writes : list hap_write) (events : list Fan_event_t)
  : Prop :=
  Forall2 (fun wr e => HomeKit_write_event wr = Some e) writes events.

Definition enqueue_all (events : list Fan_event_t) (q : list Fan_event_t)
  : list Fan_event_t :=
  fold_left xQueueSend events q.

(** The stored state after a command, as the handlers compute it from the
    stored state before: the transition table of the controller. *)
Definition fan_rule (f : Fan_state_t) (e : Fan_event_t) : Fan_state_t :=
  match source e, id e with
  | SOURCE_HOMEKIT, ID_POWER =>
      {| on := negb (arg e =? 0); oscillate := oscillate f; speed := speed f |}
  | SOURCE_HOMEKIT, ID_OSCILLATE =>
      {| on := on f; oscillate := negb (arg e =? 0); speed := speed f |}
  | SOURCE_HOMEKIT, ID_SPEED =>
      if arg e =? SPEED_OFF then f
      else {| on := on f; oscillate := oscillate f; speed := arg e |}
  | SOURCE_BUTTON, ID_POWER =>
      if on f then
        if speed f =? SPEED_1
        then {| on := false; oscillate := oscillate f; speed := SPEED_4 |}
        else {| on := true; oscillate := oscillate f; speed := speed f - 1 |}
      else {| on := true; oscillate := oscillate f; speed := speed f |}
  | SOURCE_REMOTE, ID_POWER =>
      {| on := negb (on f); oscillate := oscillate f; speed := speed f |}
  | SOURCE_BUTTON, ID_OSCILLATE | SOURCE_REMOTE, ID_OSCILLATE =>
      {| on := on f; oscillate := negb (oscillate f); speed := speed f |}
  | SOURCE_REMOTE, ID_SPEED =>
      if on f
      then {| on := true; oscillate := oscillate f;
              speed := next_lower_speed (speed f) |}
      else f
  | _, _ => f
  end.

(** The four writes that clear the speed LEDs, newest first. *)
Definition speed_leds_cleared : list (Z * Z) :=
  [(FAN_SPEED4_LED_GPIO, GPIO_LOW); (FAN_SPEED3_LED_GPIO, GPIO_LOW);
   (FAN_SPEED2_LED_GPIO, GPIO_LOW); (FAN_SPEED1_LED_GPIO, GPIO_LOW)].

(** Whether a command is one of the two that switch the indicators. *)
Definition switches_indicators (e : Fan_event_t) : bool :=
  match source e, id e with
  | SOURCE_REMOTE, ID_TIME | SOURCE_REMOTE, ID_TEMPERATURE => true
  | _, _ => false
  end.



(** The status [fan_write] gives a write. *)
Definition lasko_status_of (write : lasko_write) : lasko_status_t :=
  match write with
  | lasko_on _ | lasko_rotation_speed _ => LASKO_STATUS_SUCCESS
  | lasko_rotation_direction i =>
      if i >? 1 then LASKO_STATUS_VAL_INVALID else LASKO_STATUS_SUCCESS
  | lasko_other => LASKO_STATUS_RES_ABSENT
  end.

(** The writes [fan_write] passes on to the HAP library. *)
Definition lasko_stored (write : lasko_write) : bool :=
  match write with
  | lasko_on _ => true
  | lasko_rotation_direction i => negb (i >? 1)
  | lasko_rotation_speed _ | lasko_other => false
  end.

(** How many of the edges were accepted. *)
Definition accepted_count (edges : list edge) (s : button_state) : nat :=
  length (filter negb (bounces edges s)).

(** * Proofs *)

(** ** What each actuator call leaves alone *)

Section Frame.

Variable w : World.

Lemma gpio_set_levels_log (pins : list Z) (level : Z) :
  gpio_log (gpio_set_levels pins level w)
  = map (fun p => (p, level)) (rev pins) ++ gpio_log w.
Proof.
  unfold gpio_set_levels. revert w.
  induction pins as [|p pins IH]; intros w0; simpl; [reflexivity|].
  rewrite IH, map_app, <- app_assoc. reflexivity.
Qed.

Lemma Relay_write_speed_state (sp : Z) :
  g_Fan_state (Relay_write_speed sp w) = g_Fan_state w.
Proof.
  unfold Relay_write_speed.
  repeat match goal with |- context [if ?c then _ else _] => destruct c end;
    reflexivity.
Qed.

Lemma Led_write_speed_state (sp : Z) :
  g_Fan_state (Led_write_speed sp w) = g_Fan_state w.
Proof.
  unfold Led_write_speed.
  repeat match goal with |- context [if ?c then _ else _] => destruct c end;
    reflexivity.
Qed.

Lemma HomeKit_update_char_state :
  g_Fan_state (HomeKit_update_char w) = g_Fan_state w.
Proof. reflexivity. Qed.

End Frame.

(** ** Infrared timing *)

Lemma check_in_range_short (d : Z) :
  check_in_range d DURATION_SHORT = true <-> 200 < d < 600.
Proof.
  unfold check_in_range, DURATION_SHORT, DURATION_ERROR_MARGIN, uint32.
  change ((400 + 200) mod 2 ^ 32) with 600.
  change ((400 - 200) mod 2 ^ 32) with 200.
  rewrite andb_true_iff, Z.ltb_lt, Z.gtb_lt. lia.
Qed.

Lemma check_in_range_long (d : Z) :
  check_in_range d DURATION_LONG = true <-> 1000 < d < 1400.
Proof.
  unfold check_in_range, DURATION_LONG, DURATION_ERROR_MARGIN, uint32.
  change ((1200 + 200) mod 2 ^ 32) with 1400.
  change ((1200 - 200) mod 2 ^ 32) with 1000.
  rewrite andb_true_iff, Z.ltb_lt, Z.gtb_lt. lia.
Qed.

(** C9, as the claim states it, fails: a duration exactly 200 us away from
    its template is within the inclusive tolerance, yet the pair
    (1400 us, 600 us) is not taken for a logic 0 and the pair
    (200 us, 1000 us) is not taken for a logic 1. *)
Lemma tolerance_bound_rejected :
  within_tolerance 1400 DURATION_LONG
  /\ within_tolerance 600 DURATION_SHORT
  /\ parse_logic0 {| duration0 := 1400; duration1 := 600 |} = false
  /\ within_tolerance 200 DURATION_SHORT
  /\ within_tolerance 1000 DURATION_LONG
  /\ parse_logic1 {| duration0 := 200; duration1 := 1000 |} = false.
Proof.
  unfold within_tolerance, DURATION_LONG, DURATION_SHORT,
    DURATION_ERROR_MARGIN.
  repeat split; try reflexivity; lia.
Qed.

(** C9, amended: a duration matches a template (short 400 us, long 1200 us)
    exactly when it deviates from it by strictly less than 200 us.  A pair
    is a logic 0 exactly when its mark is strictly within tolerance of the
    long template and its space of the short one, a logic 1 the other way
    round; the pairs (1400 us, 600 us) and (200 us, 1000 us), which deviate
    by exactly 200 us, match neither template, and the pairs one microsecond
    inside the bounds do match. *)
Theorem tolerance_is_exclusive :
  (forall d : Z,
      (check_in_range d DURATION_SHORT = true
       <-> strictly_within_tolerance d DURATION_SHORT)
      /\ (check_in_range d DURATION_LONG = true
          <-> strictly_within_tolerance d DURATION_LONG))
  /\ (forall symbol : rmt_symbol_word_t,
        (parse_logic0 symbol = true
         <-> strictly_within_tolerance (duration0 symbol) DURATION_LONG
             /\ strictly_within_tolerance (duration1 symbol) DURATION_SHORT)
        /\ (parse_logic1 symbol = true
            <-> strictly_within_tolerance (duration0 symbol) DURATION_SHORT
                /\ strictly_within_tolerance (duration1 symbol) DURATION_LONG))
  /\ classify {| duration0 := 1400; duration1 := 600 |} = None
  /\ classify {| duration0 := 200; duration1 := 1000 |} = None
  /\ classify {| duration0 := 1399; duration1 := 599 |} = Some false
  /\ classify {| duration0 := 201; duration1 := 1001 |} = Some true.
Proof.
  assert (Hs : forall d, check_in_range d DURATION_SHORT = true
                         <-> strictly_within_tolerance d DURATION_SHORT).
  { intros d. rewrite check_in_range_short.
    unfold strictly_within_tolerance, DURATION_SHORT, DURATION_ERROR_MARGIN.
    lia. }
  assert (Hl : forall d, check_in_range d DURATION_LONG = true
                         <-> strictly_within_tolerance d DURATION_LONG).
  { intros d. rewrite check_in_range_long.
    unfold strictly_within_tolerance, DURATION_LONG, DURATION_ERROR_MARGIN.
    lia. }
  split; [intros d; split; [apply Hs | apply Hl]|].
  split; [|repeat split; reflexivity].
  intros symbol. unfold parse_logic0, parse_logic1.
  rewrite !andb_true_iff, !Hs, !Hl. tauto.
Qed.

(** ** Oscillation from the remote and from the button *)

(** C10: for every state of the controller, a Remote/Oscillate command and a
    Button/Oscillate command are handled alike, by the handlers and by the
    loop around them: the stored oscillate flag is flipped, the flipped
    value is written to the oscillation relay exactly when the fan is on
    (no other pin is written by the handler), and the resulting state is
    published to HomeKit. *)
Theorem remote_oscillate_is_button_oscillate (w : World) (a a' : Z) :
  let remote := {| source := SOURCE_REMOTE; id := ID_OSCILLATE; arg := a |} in
  let button := {| source := SOURCE_BUTTON; id := ID_OSCILLATE; arg := a' |} in
  let f := g_Fan_state w in
  let f' := {| on := on f; oscillate := negb (oscillate f);
               speed := speed f |} in
  handle_remote remote w = handle_button button w
  /\ Lasko_event_handler remote w = Lasko_event_handler button w
  /\ g_Fan_state (handle_button button w) = f'
  /\ gpio_log (handle_button button w)
     = (if on f then oscillate_written (negb (oscillate f)) (gpio_log w)
        else gpio_log w)
  /\ hap_log (handle_button button w) = published f' (hap_log w)
  /\ g_Led_enable (handle_button button w) = g_Led_enable w.
Proof.
  destruct w as [[o osc s] led glog hlog].
  repeat split; destruct o; reflexivity.
Qed.

(** ** The power button *)

(** One press of the power button, for a fan whose stored speed is 1 to 4:
    the handler and the loop around it. *)
Lemma button_power_step (w : World) (o osc : bool) (s : Z) :
  g_Fan_state w = {| on := o; oscillate := osc; speed := s |} ->
  valid_speed s ->
  let press := button_event ID_POWER in
  let next := s - 1 + Z.b2z (negb o) in
  g_Fan_state (handle_button press w)
  = (if next =? SPEED_OFF
     then {| on := false; oscillate := osc; speed := SPEED_4 |}
     else {| on := true; oscillate := osc; speed := next |})
  /\ gpio_log (handle_button press w)
     = (if next =? SPEED_OFF
        then oscillate_written false (speed_off_written (gpio_log w))
        else oscillate_written osc (speed_written next (gpio_log w)))
  /\ g_Fan_state (Lasko_event_handler press w)
     = g_Fan_state (handle_button press w).
Proof.
  destruct w as [[o' osc' s'] led glog hlog]. cbn [g_Fan_state].
  intros [= -> -> ->] Hs.
  unfold valid_speed, SPEED_1, SPEED_4 in Hs.
  assert (Hc : s = 1 \/ s = 2 \/ s = 3 \/ s = 4) by lia.
  destruct Hc as [-> | [-> | [-> | ->]]]; destruct o, osc, led;
    repeat split; reflexivity.
Qed.

Lemma button_power_on_step (w : World) (o osc : bool) (s next : Z) :
  g_Fan_state w = {| on := o; oscillate := osc; speed := s |} ->
  valid_speed s ->
  s - 1 + Z.b2z (negb o) = next ->
  next <> SPEED_OFF ->
  let press := button_event ID_POWER in
  g_Fan_state (handle_button press w)
  = {| on := true; oscillate := osc; speed := next |}
  /\ gpio_log (handle_button press w)
     = oscillate_written osc (speed_written next (gpio_log w))
  /\ g_Fan_state (Lasko_event_handler press w)
     = {| on := true; oscillate := osc; speed := next |}.
Proof.
  intros Hw Hs Hn Hne press.
  destruct (button_power_step w o osc s Hw Hs) as (HS & HG & HL).
  fold press in HS, HG, HL. rewrite HL. cbv zeta in HS, HG. rewrite Hn in HS, HG.
  apply Z.eqb_neq in Hne. rewrite Hne in HS, HG. auto.
Qed.

Lemma button_power_off_step (w : World) (osc : bool) :
  g_Fan_state w = {| on := true; oscillate := osc; speed := SPEED_1 |} ->
  let press := button_event ID_POWER in
  g_Fan_state (handle_button press w)
  = {| on := false; oscillate := osc; speed := SPEED_4 |}
  /\ gpio_log (handle_button press w)
     = oscillate_written false (speed_off_written (gpio_log w))
  /\ g_Fan_state (Lasko_event_handler press w)
     = {| on := false; oscillate := osc; speed := SPEED_4 |}.
Proof.
  intros Hw press.
  assert (V1 : valid_speed SPEED_1)
    by (unfold valid_speed, SPEED_1, SPEED_4; lia).
  destruct (button_power_step w true osc SPEED_1 Hw V1) as (HS & HG & HL).
  fold press in HS, HG, HL. rewrite HL. auto.
Qed.

(** C2: from a fan that is off with stored speed 4, five presses of the
    power button go through on at speed 4, 3, 2 and 1 and back to off with
    the stored speed reset to 4.  On each of the four steps that leave the
    fan on the speed relays are cleared and the relay of the next speed is
    asserted, and the oscillation relay is written the stored oscillate
    flag; on the step that turns the fan off the speed relays are cleared
    and the oscillation relay is written false.  The stored oscillate flag
    is kept throughout, and the loop around the handler reaches the same
    fan states. *)
Theorem button_power_cycle (osc led : bool) (glog : list (Z * Z))
    (hlog : list (hap_char * hap_val_t)) :
  let press := button_event ID_POWER in
  let w0 := {| g_Fan_state := {| on := false; oscillate := osc;
                                 speed := SPEED_4 |};
               g_Led_enable := led; gpio_log := glog; hap_log := hlog |} in
  let w1 := handle_button press w0 in
  let w2 := handle_button press w1 in
  let w3 := handle_button press w2 in
  let w4 := handle_button press w3 in
  let w5 := handle_button press w4 in
  (g_Fan_state w1 = {| on := true; oscillate := osc; speed := SPEED_4 |}
   /\ gpio_log w1
      = oscillate_written osc (speed_written SPEED_4 (gpio_log w0)))
  /\ (g_Fan_state w2 = {| on := true; oscillate := osc; speed := SPEED_3 |}
      /\ gpio_log w2
         = oscillate_written osc (speed_written SPEED_3 (gpio_log w1)))
  /\ (g_Fan_state w3 = {| on := true; oscillate := osc; speed := SPEED_2 |}
      /\ gpio_log w3
         = oscillate_written osc (speed_written SPEED_2 (gpio_log w2)))
  /\ (g_Fan_state w4 = {| on := true; oscillate := osc; speed := SPEED_1 |}
      /\ gpio_log w4
         = oscillate_written osc (speed_written SPEED_1 (gpio_log w3)))
  /\ (g_Fan_state w5 = {| on := false; oscillate := osc; speed := SPEED_4 |}
      /\ gpio_log w5
         = oscillate_written false (speed_off_written (gpio_log w4)))
  /\ (let l1 := Lasko_event_handler press w0 in
      let l2 := Lasko_event_handler press l1 in
      let l3 := Lasko_event_handler press l2 in
      let l4 := Lasko_event_handler press l3 in
      let l5 := Lasko_event_handler press l4 in
      run_events (repeat press 5) w0 = l5
      /\ map g_Fan_state [l1; l2; l3; l4; l5]
         = map g_Fan_state [w1; w2; w3; w4; w5]).
Proof.
  intros press w0 w1 w2 w3 w4 w5.
  assert (V : forall s, 1 <= s <= 4 -> valid_speed s) by (intros s H; exact H).
  assert (N : forall s, 1 <= s -> s <> SPEED_OFF)
    by (unfold SPEED_OFF; intros s H; lia).
  destruct (button_power_on_step w0 false osc 4 4 eq_refl
              (V 4 ltac:(lia)) eq_refl (N 4 ltac:(lia))) as (S1 & G1 & L1).
  destruct (button_power_on_step w1 true osc 4 3 S1
              (V 4 ltac:(lia)) eq_refl (N 3 ltac:(lia))) as (S2 & G2 & _).
  destruct (button_power_on_step w2 true osc 3 2 S2
              (V 3 ltac:(lia)) eq_refl (N 2 ltac:(lia))) as (S3 & G3 & _).
  destruct (button_power_on_step w3 true osc 2 1 S3
              (V 2 ltac:(lia)) eq_refl (N 1 ltac:(lia))) as (S4 & G4 & _).
  destruct (button_power_off_step w4 osc S4) as (S5 & G5 & _).
  split; [split; [exact S1 | exact G1]|].
  split; [split; [exact S2 | exact G2]|].
  split; [split; [exact S3 | exact G3]|].
  split; [split; [exact S4 | exact G4]|].
  split; [split; [exact S5 | exact G5]|].
  intros l1 l2 l3 l4 l5. split; [reflexivity|].
  destruct (button_power_on_step l1 true osc 4 3 L1
              (V 4 ltac:(lia)) eq_refl (N 3 ltac:(lia))) as (_ & _ & L2).
  destruct (button_power_on_step l2 true osc 3 2 L2
              (V 3 ltac:(lia)) eq_refl (N 2 ltac:(lia))) as (_ & _ & L3).
  destruct (button_power_on_step l3 true osc 2 1 L3
              (V 2 ltac:(lia)) eq_refl (N 1 ltac:(lia))) as (_ & _ & L4).
  destruct (button_power_off_step l4 osc L4) as (_ & _ & L5).
  pose proof (eq_trans L1 (eq_sym S1) : g_Fan_state l1 = g_Fan_state w1) as E1.
  pose proof (eq_trans L2 (eq_sym S2) : g_Fan_state l2 = g_Fan_state w2) as E2.
  pose proof (eq_trans L3 (eq_sym S3) : g_Fan_state l3 = g_Fan_state w3) as E3.
  pose proof (eq_trans L4 (eq_sym S4) : g_Fan_state l4 = g_Fan_state w4) as E4.
  pose proof (eq_trans L5 (eq_sym S5) : g_Fan_state l5 = g_Fan_state w5) as E5.
  cbn [map]. rewrite E1, E2, E3, E4, E5. reflexivity.
Qed.


(** ** The speed button of the remote *)

Lemma next_lower_speed_valid (s : Z) :
  valid_speed s -> valid_speed (next_lower_speed s).
Proof.
  unfold valid_speed, next_lower_speed, SPEED_1, SPEED_4.
  destruct (Z.eqb_spec s 1); lia.
Qed.

(** C4: a Remote/Speed command, whatever its argument.  With the fan off,
    the fan state and the pins are as before.  With the fan on at a speed of
    1 to 4, the new speed is the next-lower one with wraparound 4, 3, 2, 1,
    4 (from 1 it is 4, and it is never Off); the speed relays are cleared
    and the relay of the new speed is asserted, and the new speed is stored,
    power and oscillation as before.  The loop around the handler stores the
    same fan state. *)
Theorem remote_speed_step (a : Z) (w : World) :
  let command := {| source := SOURCE_REMOTE; id := ID_SPEED; arg := a |} in
  (on (g_Fan_state w) = false ->
   g_Fan_state (handle_remote command w) = g_Fan_state w
   /\ gpio_log (handle_remote command w) = gpio_log w
   /\ g_Led_enable (handle_remote command w) = g_Led_enable w)
  /\ (on (g_Fan_state w) = true ->
      valid_speed (speed (g_Fan_state w)) ->
      let next := next_lower_speed (speed (g_Fan_state w)) in
      valid_speed next
      /\ next <> SPEED_OFF
      /\ (speed (g_Fan_state w) = SPEED_1 -> next = SPEED_4)
      /\ (speed (g_Fan_state w) <> SPEED_1 ->
          next = speed (g_Fan_state w) - 1)
      /\ g_Fan_state (handle_remote command w)
         = {| on := true; oscillate := oscillate (g_Fan_state w);
              speed := next |}
      /\ gpio_log (handle_remote command w) = speed_written next (gpio_log w)
      /\ g_Fan_state (Lasko_event_handler command w)
         = g_Fan_state (handle_remote command w)).
Proof.
  destruct w as [[o osc s] led glog hlog]. cbn [g_Fan_state on speed oscillate].
  split.
  - intros ->. repeat split.
  - intros -> Hs. pose proof (next_lower_speed_valid s Hs) as Hn.
    unfold valid_speed, SPEED_1, SPEED_4 in Hs.
    assert (Hc : s = 1 \/ s = 2 \/ s = 3 \/ s = 4) by lia.
    cbv zeta.
    split; [exact Hn|].
    split; [unfold valid_speed, SPEED_1, SPEED_OFF in *; lia|].
    split; [intros ->; reflexivity|].
    split; [intros H1; unfold next_lower_speed;
            destruct (Z.eqb_spec s SPEED_1); [contradiction|reflexivity]|].
    destruct Hc as [-> | [-> | [-> | ->]]]; destruct led;
      repeat split; reflexivity.
Qed.

(** C4 at work: with the fan on at speed 1 the remote brings it to speed 4
    and asserts the fourth relay; with the fan off nothing moves. *)
Lemma remote_speed_step_witness :
  (g_Fan_state (handle_remote (remote_event ID_SPEED) (boot_with (fan_on_at 1)))
   = fan_on_at 4
   /\ gpio_log (handle_remote (remote_event ID_SPEED) (boot_with (fan_on_at 1)))
      = speed_written 4 (gpio_log (boot_with (fan_on_at 1))))
  /\ gpio_log (handle_remote (remote_event ID_SPEED) boot) = gpio_log boot.
Proof.
  split.
  - destruct (remote_speed_step 0 (boot_with (fan_on_at 1))) as [_ Hon].
    assert (Hv : valid_speed (speed (g_Fan_state (boot_with (fan_on_at 1))))).
    { cbn. unfold valid_speed, SPEED_1, SPEED_4. lia. }
    destruct (Hon eq_refl Hv) as (_ & _ & _ & _ & Hstate & Hlog & _).
    split; [exact Hstate | exact Hlog].
  - destruct (remote_speed_step 0 boot) as [Hoff _].
    destruct (Hoff eq_refl) as (_ & Hlog & _). exact Hlog.
Defined.

(** ** Speed relays are never asserted together *)

Section RelaySafety.

Lemma asserted_cons (p l : Z) (log : list (Z * Z)) (q : Z) :
  asserted ((p, l) :: log) q
  = if p =? q then l =? GPIO_LOW else asserted log q.
Proof. unfold asserted. simpl. destruct (p =? q); reflexivity. Qed.

Lemma filter_length_le {A : Type} (f g : A -> bool) (l : list A) :
  (forall x, f x = true -> g x = true) ->
  (length (filter f l) <= length (filter g l))%nat.
Proof.
  intros Hfg. induction l as [|x l IH]; simpl; [lia|].
  destruct (f x) eqn:Hf.
  - rewrite (Hfg x Hf). simpl. lia.
  - destruct (g x); simpl; lia.
Qed.

(** Driving a pin high asserts nothing new. *)
Lemma relay_safe_high (p : Z) (log : list (Z * Z)) :
  relay_safe log -> relay_safe ((p, GPIO_HIGH) :: log).
Proof.
  intros Hsafe. split; [|exact Hsafe].
  apply Nat.le_trans with (asserted_count log).
  - apply filter_length_le. intros q. rewrite asserted_cons.
    destruct (p =? q); [discriminate | trivial].
  - destruct log; [exact Hsafe | exact (proj1 Hsafe)].
Qed.

(** A pin that is no speed relay does not count. *)
Lemma relay_safe_other (p l : Z) (log : list (Z * Z)) :
  existsb (Z.eqb p) speed_relays = false ->
  relay_safe log -> relay_safe ((p, l) :: log).
Proof.
  intros Hp Hsafe. split; [|exact Hsafe].
  apply Nat.le_trans with (asserted_count log).
  - unfold asserted_count.
    rewrite (filter_ext_in (asserted ((p, l) :: log)) (asserted log));
      [lia|].
    intros q Hq. rewrite asserted_cons.
    destruct (Z.eqb_spec p q) as [->|]; [|reflexivity].
    assert (existsb (Z.eqb q) speed_relays = true)
      by (apply existsb_exists; exists q; split; [exact Hq | apply Z.eqb_refl]).
    congruence.
  - destruct log; [exact Hsafe | exact (proj1 Hsafe)].
Qed.

Lemma relay_safe_cleared (log : list (Z * Z)) :
  relay_safe log -> relay_safe (speed_relays_cleared ++ log).
Proof.
  intros H. unfold speed_relays_cleared. cbn [app].
  do 4 apply relay_safe_high. exact H.
Qed.

(** After the four clearing writes one relay may be asserted. *)
Lemma relay_safe_assert_one (r : Z) (log : list (Z * Z)) :
  In r speed_relays ->
  relay_safe log ->
  relay_safe ((r, GPIO_LOW) :: speed_relays_cleared ++ log).
Proof.
  intros Hr Hsafe. split; [|apply relay_safe_cleared, Hsafe].
  simpl in Hr.
  destruct Hr as [<- | [<- | [<- | [<- | []]]]]; apply Nat.eq_le_incl;
    reflexivity.
Qed.

End RelaySafety.

(** What [Relay_write_speed] writes: nothing when the speed asked for is the
    stored one and the fan is on; otherwise the four clearing writes, followed
    by the assertion of one relay for a speed of 1 to 4. *)
Lemma Relay_write_speed_writes (sp : Z) (w : World) :
  gpio_log (Relay_write_speed sp w)
  = if (speed (g_Fan_state w) =? sp) && on (g_Fan_state w) then gpio_log w
    else if (SPEED_1 <=? sp) && (sp <=? SPEED_4)
         then speed_written sp (gpio_log w)
         else speed_off_written (gpio_log w).
Proof.
  unfold Relay_write_speed.
  replace (eqb true (on (g_Fan_state w))) with (on (g_Fan_state w))
    by (destruct (on (g_Fan_state w)); reflexivity).
  destruct ((speed (g_Fan_state w) =? sp) && on (g_Fan_state w));
    [reflexivity|].
  unfold SPEED_OFF, SPEED_1, SPEED_2, SPEED_3, SPEED_4.
  destruct (Z.eqb_spec sp 0) as [->|]; [reflexivity|].
  destruct (Z.eqb_spec sp 1) as [->|]; [reflexivity|].
  destruct (Z.eqb_spec sp 2) as [->|]; [reflexivity|].
  destruct (Z.eqb_spec sp 3) as [->|]; [reflexivity|].
  destruct (Z.eqb_spec sp 4) as [->|]; [reflexivity|].
  replace ((1 <=? sp) && (sp <=? 4)) with false; [reflexivity|].
  symmetry. apply andb_false_iff. rewrite Z.leb_gt, Z.leb_gt. lia.
Qed.

Create HintDb relay_safety.

Section SafePreserved.

Variable w : World.
Hypothesis Hsafe : Safe w.

Lemma Safe_gpio_other (p l : Z) :
  existsb (Z.eqb p) speed_relays = false -> Safe (gpio_set_level p l w).
Proof. intros Hp. apply relay_safe_other; assumption. Qed.

Lemma Safe_Relay_write_speed (sp : Z) : Safe (Relay_write_speed sp w).
Proof.
  unfold Safe. rewrite Relay_write_speed_writes.
  destruct ((speed (g_Fan_state w) =? sp) && on (g_Fan_state w));
    [exact Hsafe|].
  destruct ((SPEED_1 <=? sp) && (sp <=? SPEED_4)) eqn:Hsp.
  - apply andb_true_iff in Hsp. rewrite !Z.leb_le in Hsp.
    unfold SPEED_1, SPEED_4 in Hsp.
    apply relay_safe_assert_one; [|exact Hsafe].
    assert (Hc : sp = 1 \/ sp = 2 \/ sp = 3 \/ sp = 4) by lia.
    destruct Hc as [-> | [-> | [-> | ->]]]; simpl; auto.
  - apply relay_safe_cleared, Hsafe.
Qed.

Lemma Safe_Relay_write_oscillate (osc : bool) :
  Safe (Relay_write_oscillate osc w).
Proof. apply Safe_gpio_other. reflexivity. Qed.

Lemma Safe_Led_write_builtin (state : bool) : Safe (Led_write_builtin state w).
Proof. apply Safe_gpio_other. reflexivity. Qed.

Lemma Safe_leds_cleared : Safe (gpio_set_levels (firstn NUM_SPEED_LED leds) GPIO_LOW w).
Proof.
  unfold Safe. rewrite gpio_set_levels_log. cbn [firstn NUM_SPEED_LED leds rev map app].
  repeat (apply relay_safe_other; [reflexivity|]). exact Hsafe.
Qed.

Lemma Safe_set_Fan_state (f : Fan_state_t) : Safe (set_Fan_state f w).
Proof. exact Hsafe. Qed.

Lemma Safe_set_Led_enable (b : bool) : Safe (set_Led_enable b w).
Proof. exact Hsafe. Qed.

Lemma Safe_HomeKit_update_char : Safe (HomeKit_update_char w).
Proof. exact Hsafe. Qed.

End SafePreserved.

#[local] Hint Resolve Safe_Relay_write_speed Safe_Relay_write_oscillate
  Safe_Led_write_builtin Safe_leds_cleared Safe_set_Fan_state
  Safe_set_Led_enable Safe_HomeKit_update_char : relay_safety.

Lemma Safe_Led_write_speed (sp : Z) (w : World) :
  Safe w -> Safe (Led_write_speed sp w).
Proof.
  intros H. unfold Led_write_speed.
  repeat match goal with
         | |- context [if ?c then _ else _] => destruct c
         end; auto using Safe_gpio_other with relay_safety.
Qed.

Lemma Safe_Led_write_enable (enable : bool) (w : World) :
  Safe w -> Safe (Led_write_enable enable w).
Proof.
  intros H. unfold Led_write_enable.
  destruct (negb (g_Led_enable (set_Led_enable enable w)));
    auto with relay_safety.
Qed.

#[local] Hint Resolve Safe_Led_write_speed Safe_Led_write_enable : relay_safety.

Ltac safe_cases :=
  repeat match goal with
         | |- context [if ?c then _ else _] => destruct c
         end;
  unfold set_on, set_oscillate, set_speed;
  auto 10 with relay_safety.

Lemma Safe_handle_homekit (e : Fan_event_t) (w : World) :
  Safe w -> Safe (handle_homekit e w).
Proof. intros H. unfold handle_homekit. destruct (id e); safe_cases. Qed.

Lemma Safe_handle_button (e : Fan_event_t) (w : World) :
  Safe w -> Safe (handle_button e w).
Proof. intros H. unfold handle_button. destruct (id e); safe_cases. Qed.

Lemma Safe_handle_remote (e : Fan_event_t) (w : World) :
  Safe w -> Safe (handle_remote e w).
Proof. intros H. unfold handle_remote. destruct (id e); safe_cases. Qed.

#[local] Hint Resolve Safe_handle_homekit Safe_handle_button
  Safe_handle_remote : relay_safety.

Lemma Safe_Lasko_event_handler (e : Fan_event_t) (w : World) :
  Safe w -> Safe (Lasko_event_handler e w).
Proof.
  intros H. unfold Lasko_event_handler. destruct (source e);
    auto 10 with relay_safety.
Qed.

Lemma Safe_boot : Safe boot.
Proof.
  unfold Safe.
  change (gpio_log boot)
    with (map (fun p => (p, GPIO_LOW)) (rev leds)
          ++ (FAN_OSC_RELAY_GPIO, GPIO_HIGH) :: speed_relays_cleared ++ []).
  cbn [leds rev map app].
  repeat (apply relay_safe_other; [reflexivity|]).
  apply relay_safe_cleared. apply Nat.leb_le. reflexivity.
Qed.

Lemma Safe_run_events (events : list Fan_event_t) (w : World) :
  Safe w -> Safe (run_events events w).
Proof.
  unfold run_events. revert w.
  induction events as [|e events IH]; intros w H; simpl; [exact H|].
  apply IH, Safe_Lasko_event_handler, H.
Qed.

(** C6: whatever commands the controller handles after boot, at no point of
    the history of the pins are two speed relays asserted together.  A call
    of [Relay_write_speed] writes nothing when the speed asked for is the
    stored one of a fan that is on; every other call first clears the four
    speed relays and only then asserts at most one of them: the relay of
    the speed for a speed of 1 to 4, none otherwise.  Right after the
    clearing writes no speed relay is asserted, right after the asserting
    write exactly one is. *)
Theorem speed_relays_never_overlap :
  (forall events : list Fan_event_t,
      relay_safe (gpio_log (run_events events boot)))
  /\ (forall (sp : Z) (w : World),
        gpio_log (Relay_write_speed sp w)
        = if (speed (g_Fan_state w) =? sp) && on (g_Fan_state w)
          then gpio_log w
          else if (SPEED_1 <=? sp) && (sp <=? SPEED_4)
               then (nth (Z.to_nat (sp - 1)) speed_relays 0, GPIO_LOW)
                    :: speed_relays_cleared ++ gpio_log w
               else speed_relays_cleared ++ gpio_log w)
  /\ (forall log : list (Z * Z),
        asserted_count (speed_relays_cleared ++ log) = 0%nat
        /\ Forall
             (fun r =>
                asserted_count ((r, GPIO_LOW) :: speed_relays_cleared ++ log)
                = 1%nat)
             speed_relays).
Proof.
  split; [intros events; apply Safe_run_events, Safe_boot|].
  split.
  - intros sp w. rewrite Relay_write_speed_writes.
    destruct ((speed (g_Fan_state w) =? sp) && on (g_Fan_state w));
      [reflexivity|].
    destruct ((SPEED_1 <=? sp) && (sp <=? SPEED_4)) eqn:Hsp; [|reflexivity].
    apply andb_true_iff in Hsp. rewrite !Z.leb_le in Hsp.
    unfold SPEED_1, SPEED_4 in Hsp.
    assert (Hc : sp = 1 \/ sp = 2 \/ sp = 3 \/ sp = 4) by lia.
    destruct Hc as [-> | [-> | [-> | ->]]]; reflexivity.
  - intros log. split; [reflexivity|]. repeat constructor.
Qed.

(** ** The stored speed *)

Section StoredSpeed.

(** The events of the button and of the remote keep a stored speed of 1 to
    4 whatever they are; an event of HomeKit does if a speed it carries is
    at most 4. *)
Lemma handle_button_valid (e : Fan_event_t) (w : World) :
  valid_speed (speed (g_Fan_state w)) ->
  valid_speed (speed (g_Fan_state (handle_button e w))).
Proof.
  destruct w as [[o osc s] led glog hlog]. cbn [g_Fan_state speed].
  unfold valid_speed, SPEED_1, SPEED_4. intros Hs.
  assert (Hc : s = 1 \/ s = 2 \/ s = 3 \/ s = 4) by lia.
  destruct e as [src i a]. destruct i; unfold handle_button;
    cbn [id]; rewrite HomeKit_update_char_state;
    try (cbn; lia);
    destruct Hc as [-> | [-> | [-> | ->]]]; destruct o;
    vm_compute; split; discriminate.
Qed.

Lemma handle_remote_valid (e : Fan_event_t) (w : World) :
  valid_speed (speed (g_Fan_state w)) ->
  valid_speed (speed (g_Fan_state (handle_remote e w))).
Proof.
  destruct w as [[o osc s] led glog hlog]. cbn [g_Fan_state speed].
  unfold valid_speed, SPEED_1, SPEED_4. intros Hs.
  assert (Hc : s = 1 \/ s = 2 \/ s = 3 \/ s = 4) by lia.
  destruct e as [src i a]. destruct i; unfold handle_remote;
    cbn [id]; rewrite HomeKit_update_char_state;
    destruct Hc as [-> | [-> | [-> | ->]]]; destruct o, led;
    vm_compute; split; discriminate.
Qed.

Lemma handle_homekit_valid (e : Fan_event_t) (w : World) :
  (id e = ID_SPEED -> 0 <= arg e <= 4) ->
  valid_speed (speed (g_Fan_state w)) ->
  valid_speed (speed (g_Fan_state (handle_homekit e w))).
Proof.
  destruct w as [[o osc s] led glog hlog]. cbn [g_Fan_state speed].
  unfold valid_speed, SPEED_1, SPEED_4. intros Ha Hs.
  destruct e as [src i a]. cbn [id arg] in Ha.
  destruct i; unfold handle_homekit; cbn [id arg g_Fan_state on speed].
  - destruct (eqb o (negb (a =? 0))); [exact Hs|].
    unfold set_on. cbn [g_Fan_state speed set_Fan_state].
    unfold Relay_write_oscillate. cbn [gpio_set_level g_Fan_state].
    rewrite Relay_write_speed_state. exact Hs.
  - destruct o; cbn; exact Hs.
  - exact Hs.
  - unfold SPEED_OFF. destruct (Z.eqb_spec 0 a); [exact Hs|].
    unfold set_speed. cbn [set_Fan_state g_Fan_state speed].
    specialize (Ha eq_refl). lia.
  - exact Hs.
Qed.

Lemma produced_speed_bounded (e : Fan_event_t) :
  produced e ->
  source e = SOURCE_HOMEKIT -> id e = ID_SPEED -> 0 <= arg e <= 4.
Proof.
  intros [ | | c i Hc | wr e' Hwr]; try discriminate.
  destruct wr as [b | b | z | ]; simpl in Hwr; try discriminate.
  - injection Hwr as <-. discriminate.
  - injection Hwr as <-. discriminate.
  - injection Hwr as <-. intros _ _. cbn [arg].
    repeat match goal with
           | |- context [if ?c then _ else _] => destruct c
           end; cbv; split; discriminate.
Qed.

Lemma Lasko_event_handler_valid (e : Fan_event_t) (w : World) :
  produced e ->
  valid_speed (speed (g_Fan_state w)) ->
  valid_speed (speed (g_Fan_state (Lasko_event_handler e w))).
Proof.
  intros He Hw. unfold Lasko_event_handler.
  unfold Led_write_builtin at 1. cbn [gpio_set_level g_Fan_state].
  rewrite Led_write_speed_state.
  pose proof (produced_speed_bounded e He) as Hb.
  destruct (source e).
  - apply handle_homekit_valid; [intros Hi; apply Hb; trivial | exact Hw].
  - apply handle_remote_valid. exact Hw.
  - apply handle_button_valid. exact Hw.
Qed.

End StoredSpeed.

Lemma reachable_valid_speed (w : World) :
  reachable w -> valid_speed (speed (g_Fan_state w)).
Proof.
  induction 1 as [|e w He Hw IH].
  - vm_compute. split; discriminate.
  - apply Lasko_event_handler_valid; assumption.
Qed.

(** C7: in every state reachable from initialisation by commands of the
    three producers the stored speed is one of SPEED_1 to SPEED_4, never
    SPEED_OFF.  From such a state, a press of the power button that turns
    the fan off stores SPEED_4 (which is what happens at SPEED_1 with the
    fan on); the power button of the remote and a power write of HomeKit
    leave the stored speed as it is, also when they turn the fan off; and a
    speed of Off from HomeKit changes nothing at all. *)
Theorem stored_speed_invariant (w : World) :
  reachable w ->
  let f := g_Fan_state w in
  valid_speed (speed f)
  /\ speed f <> SPEED_OFF
  /\ (on (g_Fan_state (handle_button (button_event ID_POWER) w)) = false ->
      speed (g_Fan_state (handle_button (button_event ID_POWER) w)) = SPEED_4)
  /\ (on f = true -> speed f = SPEED_1 ->
      g_Fan_state (handle_button (button_event ID_POWER) w)
      = {| on := false; oscillate := oscillate f; speed := SPEED_4 |})
  /\ g_Fan_state (handle_remote (remote_event ID_POWER) w)
     = {| on := negb (on f); oscillate := oscillate f; speed := speed f |}
  /\ (forall (b : bool) (e : Fan_event_t),
        HomeKit_write_event (write_on b) = Some e ->
        g_Fan_state (handle_homekit e w)
        = {| on := b; oscillate := oscillate f; speed := speed f |})
  /\ (forall e : Fan_event_t,
        HomeKit_write_event (write_rotation_speed 0) = Some e ->
        handle_homekit e w = w).
Proof.
  intros Hr f. pose proof (reachable_valid_speed w Hr) as Hv. subst f.
  clear Hr. destruct w as [[o osc s] led glog hlog].
  cbn [g_Fan_state on oscillate speed] in *.
  split; [exact Hv|].
  unfold valid_speed, SPEED_1, SPEED_4, SPEED_OFF in *.
  split; [lia|].
  assert (Hc : s = 1 \/ s = 2 \/ s = 3 \/ s = 4) by lia.
  split; [|split; [|split; [|split]]].
  - destruct Hc as [-> | [-> | [-> | ->]]]; destruct o; vm_compute;
      intros H; first [reflexivity | discriminate H].
  - intros -> ->. reflexivity.
  - unfold handle_remote. cbn [id remote_event].
    rewrite HomeKit_update_char_state. unfold set_on.
    cbn [set_Fan_state g_Fan_state Relay_write_oscillate gpio_set_level].
    rewrite Relay_write_speed_state. reflexivity.
  - intros b e [= <-]. unfold handle_homekit. cbn [id arg g_Fan_state on].
    destruct o, b; cbn [Z.b2z Z.eqb negb eqb]; try reflexivity;
      unfold set_on;
      cbn [set_Fan_state g_Fan_state Relay_write_oscillate gpio_set_level];
      rewrite ?Relay_write_speed_state; reflexivity.
  - intros e [= <-]. reflexivity.
Qed.

(** C7 at work: the state after boot and one press of the power button. *)
Lemma stored_speed_invariant_witness :
  valid_speed
    (speed (g_Fan_state (Lasko_event_handler (button_event ID_POWER) boot))).
Proof.
  exact (proj1 (stored_speed_invariant
                  (Lasko_event_handler (button_event ID_POWER) boot)
                  (reachable_step (button_event ID_POWER) boot
                     produced_power_button reachable_boot))).
Defined.

(** ** The infrared decoder *)

Section Decoder.

Lemma classify_one (symbol : rmt_symbol_word_t) :
  classify symbol = Some true -> parse_logic1 symbol = true.
Proof.
  unfold classify. destruct (parse_logic1 symbol); [trivial|].
  destruct (parse_logic0 symbol); discriminate.
Qed.

Lemma classify_zero (symbol : rmt_symbol_word_t) :
  classify symbol = Some false ->
  parse_logic1 symbol = false /\ parse_logic0 symbol = true.
Proof.
  unfold classify. destruct (parse_logic1 symbol); [discriminate|].
  destruct (parse_logic0 symbol); [auto | discriminate].
Qed.

Lemma classify_none (symbol : rmt_symbol_word_t) :
  classify symbol = None ->
  parse_logic1 symbol = false /\ parse_logic0 symbol = false.
Proof.
  unfold classify. destruct (parse_logic1 symbol); [discriminate|].
  destruct (parse_logic0 symbol); [discriminate | auto].
Qed.

(** A pair that is no bit leaves the function at once. *)
Lemma parse_symbol_bad (symbol : rmt_symbol_word_t) (d : decoder) :
  classify symbol = None ->
  parse_symbol symbol d = inr (Exit_bad_symbol, d).
Proof.
  intros H. destruct (classify_none symbol H) as [H1 H0].
  unfold parse_symbol. rewrite H1, H0. reflexivity.
Qed.

Lemma parse_symbol_exit (symbol : rmt_symbol_word_t) (d d' : decoder)
    (e : decode_exit) :
  parse_symbol symbol d = inr (e, d') ->
  e = Exit_bad_symbol \/ e = Exit_undefined_shift.
Proof.
  unfold parse_symbol.
  destruct (parse_logic1 symbol).
  - destruct (shift_defined _).
    + destruct (NUM_SYMBOL_EXPECTED =? _); [|discriminate].
      destruct (is_command _ _) as [valid q]. destruct valid; discriminate.
    + intros [= <- _]. auto.
  - destruct (parse_logic0 symbol); cbn [negb].
    + destruct (NUM_SYMBOL_EXPECTED =? _); [|discriminate].
      destruct (is_command _ _) as [valid q]. destruct valid; discriminate.
    + intros [= <- _]. auto.
Qed.

(** Nothing after a pair that is no bit is looked at. *)
Lemma parse_symbols_bad (pre post : list rmt_symbol_word_t)
    (bad : rmt_symbol_word_t) (d : decoder) :
  classify bad = None ->
  parse_symbols (pre ++ bad :: post) d
  = match parse_symbols pre d with
    | (Exit_end_of_frame, d') => (Exit_bad_symbol, d')
    | left_earlier => left_earlier
    end.
Proof.
  intros Hbad. revert d.
  induction pre as [|s pre IH]; intros d; simpl.
  - rewrite (parse_symbol_bad bad d Hbad). reflexivity.
  - destruct (parse_symbol s d) as [d' | [e d']] eqn:Hs.
    + apply IH.
    + destruct (parse_symbol_exit s d d' e Hs) as [-> | ->]; reflexivity.
Qed.

(** *** Accumulation *)

Lemma lor_low_bit (v n : Z) :
  0 <= n ->
  Z.lor (v * 2 ^ (n + 1)) (Z.shiftl 1 n) = (2 * v + 1) * 2 ^ n.
Proof.
  intros Hn. rewrite Z.shiftl_1_l.
  assert (Hland : Z.land (v * 2 ^ (n + 1)) (2 ^ n) = 0).
  { apply Z.bits_inj'. intros m Hm.
    rewrite Z.land_spec, Z.bits_0, Z.pow2_bits_eqb by exact Hn.
    destruct (Z.eqb_spec n m) as [<-|]; [|apply andb_false_r].
    rewrite Z.mul_pow2_bits_low by lia. reflexivity. }
  rewrite <- Z.lxor_lor, <- Z.add_nocarry_lxor by exact Hland.
  rewrite Z.pow_add_r by lia. change (2 ^ 1) with 2. ring.
Qed.

(** One pair that is a bit, before the window is full: the bit is folded
    in below the bits read so far and nothing is sent. *)
Lemma parse_symbol_bit (symbol : rmt_symbol_word_t) (b : bool) (d : decoder)
    (j v : Z) :
  classify symbol = Some b ->
  bit_index d = j -> 0 <= j < 10 ->
  ir_code d = v * 2 ^ (11 - j) -> 0 <= v < 2 ^ j ->
  exists sl,
    parse_symbol symbol d
    = inl {| ir_code := (2 * v + Z.b2z b) * 2 ^ (10 - j);
             bit_index := j + 1; queue := queue d; shift_log := sl |}.
Proof.
  intros Hc Hj Hjr Hcode Hv.
  assert (Hnext : size_t (j + 1) = j + 1)
    by (unfold size_t; apply Z.mod_small; lia).
  assert (Hcheck : (NUM_SYMBOL_EXPECTED =? j + 1) = false)
    by (apply Z.eqb_neq; unfold NUM_SYMBOL_EXPECTED; lia).
  unfold parse_symbol. destruct b.
  - rewrite (classify_one symbol Hc).
    assert (Hn : size_t (NUM_SYMBOL_EXPECTED - bit_index d - 1) = 10 - j)
      by (unfold size_t, NUM_SYMBOL_EXPECTED; rewrite Hj;
          replace (11 - j - 1) with (10 - j) by lia;
          apply Z.mod_small; lia).
    rewrite Hn.
    assert (Hdef : shift_defined (10 - j) = true)
      by (unfold shift_defined; apply andb_true_iff;
          rewrite Z.leb_le, Z.ltb_lt; lia).
    rewrite Hdef. cbn [ir_code bit_index queue shift_log].
    rewrite Hj, Hnext, Hcheck, Hcode.
    replace (11 - j) with (10 - j + 1) by lia.
    rewrite lor_low_bit by lia.
    assert (Hsmall : uint16 ((2 * v + 1) * 2 ^ (10 - j))
                     = (2 * v + 1) * 2 ^ (10 - j)).
    { unfold uint16. apply Z.mod_small. split; [nia|].
      apply Z.lt_le_trans with (2 ^ (j + 1) * 2 ^ (10 - j)).
      - apply Z.mul_lt_mono_pos_r; [lia|].
        rewrite Z.pow_add_r by lia. change (2 ^ 1) with 2. lia.
      - rewrite <- Z.pow_add_r by lia. apply Z.pow_le_mono_r; lia. }
    rewrite Hsmall. eexists. reflexivity.
  - destruct (classify_zero symbol Hc) as [H1 H0]. rewrite H1, H0.
    cbn [negb ir_code bit_index queue shift_log].
    rewrite Hj, Hnext, Hcheck, Hcode. cbn [Z.b2z].
    replace (v * 2 ^ (11 - j)) with ((2 * v + 0) * 2 ^ (10 - j)).
    + eexists. reflexivity.
    + replace (11 - j) with (10 - j + 1) by lia.
      rewrite Z.pow_add_r by lia. change (2 ^ 1) with 2. ring.
Qed.

(** The eleventh bit of a window that spells a command: the command is
    sent and the counters are left as they are. *)
Lemma parse_symbol_last_bit (symbol : rmt_symbol_word_t) (b : bool)
    (d : decoder) (v : Z) (i : Event_id) :
  classify symbol = Some b ->
  bit_index d = 10 ->
  ir_code d = v * 2 ^ 1 -> 0 <= v < 2 ^ 10 ->
  command_id (2 * v + Z.b2z b) = Some i ->
  exists sl,
    parse_symbol symbol d
    = inl {| ir_code := 2 * v + Z.b2z b; bit_index := 11;
             queue := xQueueSend (queue d) (remote_event i);
             shift_log := sl |}.
Proof.
  intros Hc Hj Hcode Hv Hcmd.
  change (2 ^ 1) with 2 in Hcode.
  unfold parse_symbol. destruct b; cbn [Z.b2z] in *.
  - rewrite (classify_one symbol Hc). rewrite Hj.
    change (size_t (NUM_SYMBOL_EXPECTED - 10 - 1)) with 0.
    change (shift_defined 0) with true.
    cbn [ir_code bit_index queue shift_log]. rewrite Hcode.
    change (size_t (10 + 1)) with 11.
    change (NUM_SYMBOL_EXPECTED =? 11) with true. cbv iota.
    replace (v * 2) with (v * 2 ^ (0 + 1))
      by (change (2 ^ (0 + 1)) with 2; ring).
    rewrite lor_low_bit by lia. change (2 ^ 0) with 1.
    replace ((2 * v + 1) * 1) with (2 * v + 1) by ring.
    assert (Hsmall : uint16 (2 * v + 1) = 2 * v + 1)
      by (unfold uint16; apply Z.mod_small; lia).
    rewrite Hsmall. unfold is_command. rewrite Hcmd. cbn [negb].
    eexists. reflexivity.
  - destruct (classify_zero symbol Hc) as [H1 H0]. rewrite H1, H0.
    cbn [negb ir_code bit_index queue shift_log]. rewrite Hj, Hcode.
    change (size_t (10 + 1)) with 11.
    change (NUM_SYMBOL_EXPECTED =? 11) with true. cbv iota.
    replace (v * 2) with (2 * v + 0) by ring.
    unfold is_command. rewrite Hcmd. cbn [negb].
    eexists. reflexivity.
Qed.

Lemma bits_msb_first_from_bound (bits : list bool) (v j : Z) :
  0 <= j -> 0 <= v < 2 ^ j ->
  0 <= bits_msb_first_from v bits < 2 ^ (j + Z.of_nat (length bits)).
Proof.
  revert v j. unfold bits_msb_first_from.
  induction bits as [|b bits IH]; intros v j Hj Hv.
  - simpl. rewrite Z.add_0_r. exact Hv.
  - cbn [fold_left length]. rewrite Nat2Z.inj_succ.
    replace (j + Z.succ (Z.of_nat (length bits)))
      with (j + 1 + Z.of_nat (length bits)) by lia.
    apply IH; [lia|].
    rewrite Z.pow_add_r by lia. change (2 ^ 1) with 2.
    destruct b; cbn [Z.b2z]; lia.
Qed.

(** The first bits of a window. *)
Lemma parse_symbols_bits (bits : list bool) :
  forall (symbols rest : list rmt_symbol_word_t) (d : decoder) (j v : Z),
    map classify symbols = map Some bits ->
    bit_index d = j -> 0 <= j ->
    j + Z.of_nat (length bits) <= 10 ->
    ir_code d = v * 2 ^ (11 - j) -> 0 <= v < 2 ^ j ->
    exists sl,
      parse_symbols (symbols ++ rest) d
      = parse_symbols rest
          {| ir_code := bits_msb_first_from v bits
                        * 2 ^ (11 - j - Z.of_nat (length bits));
             bit_index := j + Z.of_nat (length bits);
             queue := queue d; shift_log := sl |}.
Proof.
  induction bits as [|b bits IH];
    intros symbols rest d j v Hmap Hj Hj0 Hlen Hcode Hv.
  - destruct symbols; [|discriminate]. exists (shift_log d).
    cbn [app length Z.of_nat bits_msb_first_from fold_left].
    rewrite Z.sub_0_r, Z.add_0_r, <- Hcode, <- Hj.
    destruct d; reflexivity.
  - destruct symbols as [|s symbols]; [discriminate|].
    cbn [map] in Hmap. injection Hmap as Hs Hmap.
    cbn [length] in Hlen. rewrite Nat2Z.inj_succ in Hlen.
    destruct (parse_symbol_bit s b d j v Hs Hj ltac:(lia) Hcode Hv)
      as [sl Hstep].
    cbn [app parse_symbols]. rewrite Hstep.
    set (d' := {| ir_code := (2 * v + Z.b2z b) * 2 ^ (10 - j);
                  bit_index := j + 1; queue := queue d;
                  shift_log := sl |}).
    assert (Hcode' : ir_code d' = (2 * v + Z.b2z b) * 2 ^ (11 - (j + 1))).
    { cbn [d' ir_code]. replace (11 - (j + 1)) with (10 - j) by lia.
      reflexivity. }
    assert (Hv' : 0 <= 2 * v + Z.b2z b < 2 ^ (j + 1)).
    { rewrite Z.pow_add_r by lia. change (2 ^ 1) with 2.
      destruct b; cbn [Z.b2z]; lia. }
    destruct (IH symbols rest d' (j + 1) (2 * v + Z.b2z b) Hmap eq_refl
                ltac:(lia) ltac:(lia) Hcode' Hv') as [sl' Hrest].
    exists sl'. rewrite Hrest. cbn [d' queue length].
    rewrite Nat2Z.inj_succ. unfold bits_msb_first_from. cbn [fold_left].
    replace (11 - (j + 1) - Z.of_nat (length bits))
      with (11 - j - Z.succ (Z.of_nat (length bits))) by lia.
    replace (j + 1 + Z.of_nat (length bits))
      with (j + Z.succ (Z.of_nat (length bits))) by lia.
    reflexivity.
Qed.

(** Once a command was found the window never fills again, so nothing
    more is sent from the frame. *)
Lemma parse_symbols_after_command (rest : list rmt_symbol_word_t) :
  forall d : decoder,
    11 <= bit_index d ->
    bit_index d + Z.of_nat (length rest) < 2 ^ 32 ->
    queue (snd (parse_symbols rest d)) = queue d.
Proof.
  induction rest as [|s rest IH]; intros d Hlo Hhi; [reflexivity|].
  cbn [length] in Hhi. rewrite Nat2Z.inj_succ in Hhi.
  assert (Hnext : size_t (bit_index d + 1) = bit_index d + 1)
    by (unfold size_t; apply Z.mod_small; lia).
  assert (Hcheck : (NUM_SYMBOL_EXPECTED =? bit_index d + 1) = false)
    by (apply Z.eqb_neq; unfold NUM_SYMBOL_EXPECTED; lia).
  cbn [parse_symbols]. unfold parse_symbol.
  destruct (parse_logic1 s).
  - destruct (shift_defined _); [|reflexivity].
    cbn [ir_code bit_index queue shift_log]. rewrite Hnext, Hcheck.
    rewrite IH; cbn [bit_index queue]; [reflexivity | lia | lia].
  - destruct (parse_logic0 s); cbn [negb]; [|reflexivity].
    cbn [ir_code bit_index queue shift_log]. rewrite Hnext, Hcheck.
    rewrite IH; cbn [bit_index queue]; [reflexivity | lia | lia].
Qed.

End Decoder.

Lemma ir_codes_command_id (code : Z) (kind : Event_id) :
  In (code, kind) ir_codes -> command_id code = Some kind.
Proof.
  simpl. intros [H | [H | [H | [H | [H | []]]]]];
    injection H as <- <-; reflexivity.
Qed.

Lemma parse_ir_code_full (frame : list rmt_symbol_word_t)
    (q : list Fan_event_t) :
  length frame = 48%nat ->
  parse_ir_code frame q = parse_symbols frame (decoder_init q).
Proof. intros H. unfold parse_ir_code. rewrite H. reflexivity. Qed.

(** C3: take a frame of exactly 48 pairs whose leading eleven pairs classify
    as bits that, accumulated most-significant-first, give one of the five
    codes (Power 0x13F, Oscillate 0x13B, Speed 0x13D, Time 0x13E,
    Temperature 0x12F).  Then the decoder sends the command of that code,
    with source Remote, to the queue, and sends nothing else from the
    frame; with room in the queue the command is its new last element.  A
    frame of any other length is left at once: nothing is sent. *)
Theorem known_code_is_enqueued :
  (forall (frame : list rmt_symbol_word_t) (q : list Fan_event_t)
          (bits : list bool) (code : Z) (kind : Event_id),
      length frame = 48%nat ->
      map classify (firstn 11 frame) = map Some bits ->
      bits_msb_first bits = code ->
      In (code, kind) ir_codes ->
      let command := {| source := SOURCE_REMOTE; id := kind; arg := 0 |} in
      queue (snd (parse_ir_code frame q)) = xQueueSend q command
      /\ ((length q < QUEUE_LENGTH)%nat ->
          queue (snd (parse_ir_code frame q)) = q ++ [command]))
  /\ (forall (frame : list rmt_symbol_word_t) (q : list Fan_event_t),
        length frame <> 48%nat ->
        parse_ir_code frame q = (Exit_noise, decoder_init q)
        /\ queue (snd (parse_ir_code frame q)) = q).
Proof.
  split.
  - intros frame q bits code kind Hlen Hmap Hcode Hin command.
    assert (Hsent : queue (snd (parse_ir_code frame q)) = xQueueSend q command).
    { rewrite (parse_ir_code_full frame q Hlen).
      do 11 (destruct frame as [|? frame]; [discriminate|]).
      cbn [firstn map] in Hmap.
      do 11 (destruct bits as [|? bits]; [discriminate|]).
      destruct bits; [|discriminate].
      injection Hmap as H0 H1 H2 H3 H4 H5 H6 H7 H8 H9 H10.
      pose proof (ir_codes_command_id code kind Hin) as Hcmd.
      rewrite <- Hcode in Hcmd.
      set (init := [b; b0; b1; b2; b3; b4; b5; b6; b7; b8]).
      destruct (parse_symbols_bits init
                  [r; r0; r1; r2; r3; r4; r5; r6; r7; r8] (r9 :: frame)
                  (decoder_init q) 0 0) as [sl Hbits].
      + cbn [map init]. congruence.
      + reflexivity.
      + lia.
      + cbn. lia.
      + reflexivity.
      + cbn. lia.
      + cbn [app] in Hbits. rewrite Hbits.
        change (11 - 0 - Z.of_nat (length init)) with 1.
        change (0 + Z.of_nat (length init)) with 10.
        cbn [parse_symbols].
        destruct (parse_symbol_last_bit r9 b9
                    {| ir_code := bits_msb_first_from 0 init * 2 ^ 1;
                       bit_index := 10; queue := queue (decoder_init q);
                       shift_log := sl |}
                    (bits_msb_first_from 0 init) kind H10 eq_refl eq_refl)
          as [sl' Hlast].
        * apply (bits_msb_first_from_bound init 0 0); cbn; lia.
        * exact Hcmd.
        * rewrite Hlast. rewrite parse_symbols_after_command.
          -- reflexivity.
          -- cbn. lia.
          -- cbn [bit_index]. cbn [length] in Hlen.
             assert (length frame = 37%nat) by lia. lia. }
    split; [exact Hsent|].
    intros Hroom. rewrite Hsent. unfold xQueueSend.
    apply Nat.ltb_lt in Hroom. rewrite Hroom. reflexivity.
  - intros frame q Hlen. unfold parse_ir_code.
    assert (Hne : (RMT_MAX_MEM_SYMBOLS =? Z.of_nat (length frame)) = false)
      by (apply Z.eqb_neq; unfold RMT_MAX_MEM_SYMBOLS; lia).
    rewrite Hne. split; reflexivity.
Qed.

(** C3 at work: the Power code at nominal timing, padded to 48 pairs, puts
    the Power command of the remote on an empty queue. *)
Lemma known_code_is_enqueued_witness :
  queue (snd (parse_ir_code (padded power_pairs) []))
  = [{| source := SOURCE_REMOTE; id := ID_POWER; arg := 0 |}].
Proof.
  refine (proj2 (proj1 known_code_is_enqueued (padded power_pairs) []
                   (bits_of_code IR_CODE_POWER) IR_CODE_POWER ID_POWER
                   eq_refl eq_refl eq_refl (or_introl eq_refl)) _).
  apply Nat.ltb_lt. reflexivity.
Defined.

(** C1, as the claim states it, fails.  The Power code at nominal timing,
    padded to 48 pairs, is decoded; put one corrupted pair in front of it
    (the frame still has 48 pairs and the eleven pairs of the code are
    intact) and the decoder leaves at the corrupted pair: nothing is sent. *)
Lemma code_after_corrupted_pair_is_lost :
  length (padded (corrupted_pair :: power_pairs)) = 48%nat
  /\ classify corrupted_pair = None
  /\ map classify power_pairs = map Some (bits_of_code IR_CODE_POWER)
  /\ bits_msb_first (bits_of_code IR_CODE_POWER) = IR_CODE_POWER
  /\ queue (snd (parse_ir_code (padded power_pairs) []))
     = [remote_event ID_POWER]
  /\ parse_ir_code (padded (corrupted_pair :: power_pairs)) []
     = (Exit_bad_symbol, decoder_init []).
Proof. repeat split. Qed.

(** C1, amended: in a frame of exactly 48 pairs, a pair that matches neither
    bit template ends the decoding of the whole frame, not only of the
    current window.  The outcome is that of the pairs before it: what was
    sent before stays sent, nothing is sent for the window the pair
    interrupts, the loop is not run to the end of the frame, and the pairs
    after it are never looked at, so that replacing them changes nothing. *)
Theorem corrupted_pair_ends_frame (pre post : list rmt_symbol_word_t)
    (bad : rmt_symbol_word_t) (q : list Fan_event_t) :
  length (pre ++ bad :: post) = 48%nat ->
  classify bad = None ->
  parse_ir_code (pre ++ bad :: post) q
  = match parse_symbols pre (decoder_init q) with
    | (Exit_end_of_frame, d) => (Exit_bad_symbol, d)
    | left_earlier => left_earlier
    end
  /\ queue (snd (parse_ir_code (pre ++ bad :: post) q))
     = queue (snd (parse_symbols pre (decoder_init q)))
  /\ fst (parse_ir_code (pre ++ bad :: post) q) <> Exit_end_of_frame
  /\ (forall post' : list rmt_symbol_word_t,
        length post' = length post ->
        parse_ir_code (pre ++ bad :: post') q
        = parse_ir_code (pre ++ bad :: post) q).
Proof.
  intros Hlen Hbad.
  assert (Heq : forall post' : list rmt_symbol_word_t,
             length post' = length post ->
             parse_ir_code (pre ++ bad :: post') q
             = match parse_symbols pre (decoder_init q) with
               | (Exit_end_of_frame, d) => (Exit_bad_symbol, d)
               | left_earlier => left_earlier
               end).
  { intros post' Hpost. rewrite parse_ir_code_full.
    - apply parse_symbols_bad, Hbad.
    - rewrite length_app in *. cbn [length] in *. lia. }
  split; [apply Heq; reflexivity|].
  split; [|split].
  - rewrite (Heq post eq_refl).
    destruct (parse_symbols pre (decoder_init q)) as [[] d]; reflexivity.
  - rewrite (Heq post eq_refl).
    destruct (parse_symbols pre (decoder_init q)) as [[] d]; discriminate.
  - intros post' Hpost. rewrite (Heq post' Hpost), (Heq post eq_refl).
    reflexivity.
Qed.

(** C1 at work: a corrupted pair right after the Power code.  The command
    sent before it stays on the queue and decoding stops there. *)
Lemma corrupted_pair_ends_frame_witness :
  parse_ir_code (power_pairs ++ corrupted_pair :: repeat logic_zero 36) []
  = match parse_symbols power_pairs (decoder_init []) with
    | (Exit_end_of_frame, d) => (Exit_bad_symbol, d)
    | left_earlier => left_earlier
    end.
Proof.
  exact (proj1 (corrupted_pair_ends_frame power_pairs (repeat logic_zero 36)
                  corrupted_pair [] eq_refl eq_refl)).
Defined.

(** C8 fails on the code.  The frame is the Power code followed by a logic
    one, padded to 48 pairs.  The code is found at the eleventh pair, the
    counters are not reset, and the twelfth pair is folded in with a shift
    by [11 - 11 - 1] in [size_t], that is by 4294967295, which is neither
    in 0..10 nor a defined shift of an [int]. *)
Theorem shift_after_command_out_of_range :
  length (padded (power_pairs ++ [logic_one])) = 48%nat
  /\ parse_ir_code (padded (power_pairs ++ [logic_one])) []
     = (Exit_undefined_shift,
        {| ir_code := IR_CODE_POWER; bit_index := 11;
           queue := [remote_event ID_POWER];
           shift_log := [4294967295; 0; 1; 2; 3; 4; 5; 8] |})
  /\ size_t (NUM_SYMBOL_EXPECTED - 11 - 1) = 4294967295
  /\ ~ (0 <= 4294967295 <= 10).
Proof. repeat split. intros [_ H]. exact (H eq_refl). Qed.

(** ** The debounced buttons *)

Section Debounce.

Lemma is_bounce_false (t : Z) (s : button_state) :
  is_bounce t s = false <-> MIN_TIME_BETWEEN_PRESS <= t - prev_time_us s.
Proof. unfold is_bounce. rewrite Z.ltb_ge. reflexivity. Qed.

Lemma is_bounce_true (t : Z) (s : button_state) :
  is_bounce t s = true <-> t - prev_time_us s < MIN_TIME_BETWEEN_PRESS.
Proof. unfold is_bounce. rewrite Z.ltb_lt. reflexivity. Qed.

Lemma interrupt_accepted (e : edge) (s : button_state) :
  is_bounce (snd e) s = false ->
  interrupt e s
  = {| prev_time_us := snd e;
       button_queue :=
         xQueueSendFromISR (button_queue s)
           (button_event (button_id (fst e))) |}.
Proof.
  intros H. unfold interrupt, power_interrupt, oscillate_interrupt.
  destruct (fst e); rewrite H; reflexivity.
Qed.

Lemma interrupt_bounced (e : edge) (s : button_state) :
  is_bounce (snd e) s = true -> interrupt e s = s.
Proof.
  intros H. unfold interrupt, power_interrupt, oscillate_interrupt.
  destruct (fst e); rewrite H; reflexivity.
Qed.

(** The clock never goes back. *)
Lemma interrupt_clock_mono (e : edge) (s : button_state) :
  prev_time_us s <= prev_time_us (interrupt e s).
Proof.
  destruct (is_bounce (snd e) s) eqn:H.
  - rewrite (interrupt_bounced e s H). lia.
  - rewrite (interrupt_accepted e s H). cbn [prev_time_us].
    apply is_bounce_false in H. unfold MIN_TIME_BETWEEN_PRESS,
      NUM_USEC_IN_MSEC in H. lia.
Qed.

(** An accepted edge comes a whole window after the clock the run started
    with. *)
Lemma accepted_after_clock (edges : list edge) :
  forall (s : button_state) (j : nat) (ej : edge),
    nth_error edges j = Some ej ->
    nth_error (bounces edges s) j = Some false ->
    MIN_TIME_BETWEEN_PRESS <= snd ej - prev_time_us s.
Proof.
  induction edges as [|e edges IH]; intros s j ej Hj Hb.
  - destruct j; discriminate.
  - destruct j as [|j]; cbn [nth_error bounces] in *.
    + injection Hj as <-. injection Hb as Hb.
      apply is_bounce_false, Hb.
    + pose proof (IH (interrupt e s) j ej Hj Hb).
      pose proof (interrupt_clock_mono e s). lia.
Qed.

(** Two accepted edges are a whole window apart. *)
Lemma accepted_edges_apart (edges : list edge) :
  forall (s : button_state) (i j : nat) (ei ej : edge),
    (i < j)%nat ->
    nth_error edges i = Some ei -> nth_error edges j = Some ej ->
    nth_error (bounces edges s) i = Some false ->
    nth_error (bounces edges s) j = Some false ->
    MIN_TIME_BETWEEN_PRESS <= snd ej - snd ei.
Proof.
  induction edges as [|e edges IH]; intros s i j ei ej Hij Hi Hj Hbi Hbj.
  - destruct i; discriminate.
  - destruct j as [|j]; [lia|]. destruct i as [|i];
      cbn [nth_error bounces] in *.
    + injection Hi as <-. injection Hbi as Hbi.
      pose proof (accepted_after_clock edges (interrupt e s) j ej Hj Hbj)
        as H.
      rewrite (interrupt_accepted e s Hbi) in H. exact H.
    + apply (IH (interrupt e s) i j); [lia | assumption ..].
Qed.

(** Edges a whole window after one another are all accepted. *)
Lemma well_spaced_accepted (edges : list edge) :
  forall s : button_state,
    well_spaced (prev_time_us s) edges ->
    bounces edges s = repeat false (length edges)
    /\ ((length (button_queue s) + length edges <= QUEUE_LENGTH)%nat ->
        button_queue (run_edges edges s)
        = button_queue s
          ++ map (fun e => button_event (button_id (fst e))) edges).
Proof.
  unfold run_edges.
  induction edges as [|e edges IH]; intros s Hw.
  - split; [reflexivity|]. intros _. cbn. now rewrite app_nil_r.
  - destruct Hw as [He Hw]. apply is_bounce_false in He.
    cbn [bounces length repeat fold_left map].
    rewrite (interrupt_accepted e s He), He.
    destruct (IH {| prev_time_us := snd e;
                    button_queue :=
                      xQueueSendFromISR (button_queue s)
                        (button_event (button_id (fst e))) |} Hw)
      as [Hb Hq].
    split; [now rewrite Hb|].
    intros Hroom. unfold xQueueSendFromISR, xQueueSend in *.
    assert (Hlt : (length (button_queue s) <? QUEUE_LENGTH)%nat = true)
      by (apply Nat.ltb_lt; lia).
    rewrite Hlt in *. cbn [button_queue] in Hq.
    rewrite Hq, <- app_assoc; [reflexivity|].
    rewrite length_app. cbn [length]. lia.
Qed.

End Debounce.

(** C5, as the claim states it, fails: the two presses of the power button
    are 300 ms apart, yet the second is taken for a bounce, because the
    press of the oscillate button 40 ms before it moved the clock the two
    buttons share.  One Power command is sent, not two. *)
Lemma same_button_edges_apart_one_command :
  MIN_TIME_BETWEEN_PRESS <= 600000 - 300000
  /\ bounces crossed_edges (Button_init 0 []) = [false; false; true]
  /\ run_edges crossed_edges (Button_init 0 [])
     = {| prev_time_us := 560000;
          button_queue := [button_event ID_POWER;
                           button_event ID_OSCILLATE] |}.
Proof. repeat split. discriminate. Qed.

(** C5, amended: the two buttons share one debounce clock, which holds the
    time of the last accepted edge of either button, or of [Button_init].
    An edge at least 250 ms after the clock is accepted: a Command of source
    Button and of the kind of its button is sent to the queue (and dropped
    if the queue is full) and the clock is set to the time of the edge.  An
    edge less than 250 ms after the clock changes nothing.  Hence of two
    edges less than 250 ms apart, on the same button or not, at most one is
    accepted; and when every edge comes at least 250 ms after the edge
    before it, on whichever button, and the first that long after the
    clock, every edge is accepted and, with room in the queue, yields its
    Command, in order. *)
Theorem debounce_shared_clock :
  (forall (e : edge) (s : button_state),
      (MIN_TIME_BETWEEN_PRESS <= snd e - prev_time_us s ->
       interrupt e s
       = {| prev_time_us := snd e;
            button_queue :=
              xQueueSendFromISR (button_queue s)
                {| source := SOURCE_BUTTON; id := button_id (fst e);
                   arg := 0 |} |})
      /\ (snd e - prev_time_us s < MIN_TIME_BETWEEN_PRESS ->
          interrupt e s = s)
      /\ (is_bounce (snd e) s = false
          <-> 250 * 1000 <= snd e - prev_time_us s))
  /\ (forall (edges : list edge) (s : button_state) (i j : nat)
             (ei ej : edge),
        (i < j)%nat ->
        nth_error edges i = Some ei -> nth_error edges j = Some ej ->
        snd ej - snd ei < MIN_TIME_BETWEEN_PRESS ->
        ~ (nth_error (bounces edges s) i = Some false
           /\ nth_error (bounces edges s) j = Some false))
  /\ (forall (edges : list edge) (s : button_state),
        well_spaced (prev_time_us s) edges ->
        bounces edges s = repeat false (length edges)
        /\ ((length (button_queue s) + length edges <= QUEUE_LENGTH)%nat ->
            button_queue (run_edges edges s)
            = button_queue s
              ++ map (fun e => button_event (button_id (fst e))) edges)).
Proof.
  split; [|split].
  - intros e s. split; [|split].
    + intros H. apply interrupt_accepted, is_bounce_false, H.
    + intros H. apply interrupt_bounced, is_bounce_true, H.
    + apply is_bounce_false.
  - intros edges s i j ei ej Hij Hi Hj Hclose [Hbi Hbj].
    pose proof (accepted_edges_apart edges s i j ei ej Hij Hi Hj Hbi Hbj).
    lia.
  - intros edges s. apply well_spaced_accepted.
Qed.

(** C5 at work: two presses of the power button 250 ms apart, the first
    300 ms after [Button_init], are both accepted and both yield a Power
    command. *)
Lemma debounce_shared_clock_witness :
  bounces spaced_edges (Button_init 0 []) = [false; false]
  /\ button_queue (run_edges spaced_edges (Button_init 0 []))
     = [button_event ID_POWER; button_event ID_POWER].
Proof.
  assert (Hw : well_spaced (prev_time_us (Button_init 0 [])) spaced_edges).
  { unfold MIN_TIME_BETWEEN_PRESS, NUM_USEC_IN_MSEC. cbn. lia. }
  destruct (proj2 (proj2 debounce_shared_clock) spaced_edges
              (Button_init 0 []) Hw) as [Hb Hq].
  split; [exact Hb|]. apply Hq. apply Nat.leb_le. reflexivity.
Defined.

(** * Further properties *)

(** ** The actuators mirror the fan state *)

Lemma lit_cons (p l : Z) (log : list (Z * Z)) (q : Z) :
  lit ((p, l) :: log) q = if p =? q then l =? GPIO_HIGH else lit log q.
Proof. unfold lit. simpl. destruct (p =? q); reflexivity. Qed.

Ltac eval_world :=
  match goal with
  | |- context [Lasko_event_handler ?e ?w] =>
      let W := eval vm_compute in (Lasko_event_handler e w) in
      change (Lasko_event_handler e w) with W
  end.

Ltac read_pins :=
  unfold relays_mirror, leds_mirror, speed_relays, speed_leds, speeds, relays,
    leds, NUM_SPEED_RELAY, NUM_SPEED_LED, FAN_SPEED1_RELAY_GPIO,
    FAN_SPEED2_RELAY_GPIO, FAN_SPEED3_RELAY_GPIO, FAN_SPEED4_RELAY_GPIO,
    FAN_OSC_RELAY_GPIO, FAN_SPEED1_LED_GPIO, FAN_SPEED2_LED_GPIO,
    FAN_SPEED3_LED_GPIO, FAN_SPEED4_LED_GPIO, FAN_BUILTIN_LED_GPIO,
    SPEED_1, SPEED_2, SPEED_3, SPEED_4, GPIO_LOW, GPIO_HIGH in *;
  cbn [firstn map g_Fan_state g_Led_enable gpio_log on oscillate speed
       andb Z.eqb Pos.eqb] in *;
  repeat (first [rewrite asserted_cons | rewrite lit_cons];
          unfold GPIO_LOW, GPIO_HIGH; cbn [Z.eqb Pos.eqb]).

(** One turn of the loop keeps the relays and the indicators in step with the
    fan state. *)
Lemma mirror_step (e : Fan_event_t) (w : World) :
  produced e ->
  valid_speed (speed (g_Fan_state w)) ->
  relays_mirror w -> leds_mirror w ->
  relays_mirror (Lasko_event_handler e w)
  /\ leds_mirror (Lasko_event_handler e w).
Proof.
  intros He Hv Hr Hl.
  destruct w as [[o osc s] led glog hlog].
  unfold valid_speed, SPEED_1, SPEED_4 in Hv. cbn [g_Fan_state speed] in Hv.
  assert (Hc : s = 1 \/ s = 2 \/ s = 3 \/ s = 4) by lia. clear Hv.
  assert (Hev : exists src i a,
             e = {| source := src; id := i; arg := a |}
             /\ (src = SOURCE_HOMEKIT -> i = ID_SPEED ->
                 a = 0 \/ a = 1 \/ a = 2 \/ a = 3 \/ a = 4)
             /\ (src = SOURCE_HOMEKIT -> i <> ID_SPEED -> a = 0 \/ a = 1)
             /\ (src <> SOURCE_HOMEKIT -> a = 0)).
  { destruct He as [ | | c i Hci | wr e' Hwr].
    - exists SOURCE_BUTTON, ID_POWER, 0. repeat split; try discriminate; auto.
    - exists SOURCE_BUTTON, ID_OSCILLATE, 0.
      repeat split; try discriminate; auto.
    - exists SOURCE_REMOTE, i, 0. repeat split; try discriminate; auto.
    - destruct wr as [b | b | z | ]; simpl in Hwr; try discriminate;
        injection Hwr as <-.
      + exists SOURCE_HOMEKIT, ID_POWER, (Z.b2z b).
        repeat split; try discriminate; try congruence.
        intros _ _. destruct b; auto.
      + exists SOURCE_HOMEKIT, ID_OSCILLATE, (Z.b2z b).
        repeat split; try discriminate; try congruence.
        intros _ _. destruct b; auto.
      + eexists SOURCE_HOMEKIT, ID_SPEED, _.
        split; [reflexivity|].
        repeat split; try discriminate; try congruence.
        intros _ _.
        repeat match goal with
               | |- context [if ?c then _ else _] => destruct c
               end; cbv; auto. }
  destruct Hev as (src & i & a & -> & Hs & Hb & Hn).
  destruct Hr as [Hr Hosc]. destruct Hl as [Hl Hbi].
  destruct src, i;
    try (destruct (Hn ltac:(discriminate)));
    try (destruct (Hs eq_refl eq_refl) as [-> | [-> | [-> | [-> | ->]]]]);
    try (destruct (Hb eq_refl ltac:(discriminate)) as [-> | ->]);
    clear Hs Hb Hn;
    destruct Hc as [-> | [-> | [-> | ->]]]; destruct o, osc, led;
    eval_world; read_pins;
    injection Hr as Hr1 Hr2 Hr3 Hr4; injection Hl as Hl1 Hl2 Hl3 Hl4;
    rewrite ?Hr1, ?Hr2, ?Hr3, ?Hr4, ?Hl1, ?Hl2, ?Hl3, ?Hl4, ?Hosc, ?Hbi;
    split; split; reflexivity.
Qed.

Lemma reachable_mirror (w : World) :
  reachable w -> relays_mirror w /\ leds_mirror w.
Proof.
  induction 1 as [|e w He Hw [IHr IHl]].
  - repeat split.
  - apply mirror_step; auto using reachable_valid_speed.
Qed.

Lemma reachable_after_one_press : reachable after_one_press.
Proof.
  exact (reachable_step _ _ produced_power_button reachable_boot).
Qed.

(** X1: in every state the controller reaches the relays agree with the fan
    state.  The relay of the stored speed is asserted exactly when the fan
    is on, and no other speed relay is; the oscillation relay is asserted
    exactly when the fan is on and set to oscillate.  So with the fan off
    nothing is driven, whatever speed and oscillation are stored. *)
Theorem relays_mirror_fan_state (w : World) :
  reachable w ->
  relays_mirror w
  /\ (on (g_Fan_state w) = false ->
      asserted_count (gpio_log w) = 0%nat
      /\ asserted (gpio_log w) FAN_OSC_RELAY_GPIO = false)
  /\ (on (g_Fan_state w) = true ->
      filter (asserted (gpio_log w)) speed_relays
      = [nth (Z.to_nat (speed (g_Fan_state w) - 1)) speed_relays 0]).
Proof.
  intros Hr. destruct (reachable_mirror w Hr) as [[Hs Ho] _].
  pose proof (reachable_valid_speed w Hr) as Hv.
  split; [split; assumption|].
  unfold asserted_count.
  unfold speed_relays, speeds, relays, NUM_SPEED_RELAY in *.
  cbn [firstn map filter] in *.
  injection Hs as H1 H2 H3 H4.
  split.
  - intros Hoff. rewrite Hoff in *. cbn [andb] in *.
    rewrite H1, H2, H3, H4. auto.
  - intros Hon. rewrite Hon in *. cbn [andb] in *.
    rewrite H1, H2, H3, H4.
    unfold valid_speed, SPEED_1, SPEED_2, SPEED_3, SPEED_4 in *.
    assert (Hc : speed (g_Fan_state w) = 1 \/ speed (g_Fan_state w) = 2
                 \/ speed (g_Fan_state w) = 3 \/ speed (g_Fan_state w) = 4)
      by lia.
    destruct Hc as [-> | [-> | [-> | ->]]]; reflexivity.
Qed.

(** X1 at work: after boot and one press of the power button. *)
Lemma relays_mirror_fan_state_witness : relays_mirror after_one_press.
Proof.
  exact (proj1 (relays_mirror_fan_state after_one_press
                  reachable_after_one_press)).
Defined.

(** X2: after every turn of the loop the indicators agree with the fan
    state.  While the indicators are enabled, the LED of the stored speed is
    lit exactly when the fan is on, and no other speed LED is; while they
    are disabled all four speed LEDs are dark, whatever the fan does.  The
    built-in LED is off between turns. *)
Theorem indicators_mirror_fan_state (w : World) :
  reachable w ->
  leds_mirror w
  /\ (g_Led_enable w = false -> filter (lit (gpio_log w)) speed_leds = [])
  /\ (on (g_Fan_state w) = false -> filter (lit (gpio_log w)) speed_leds = [])
  /\ (g_Led_enable w = true -> on (g_Fan_state w) = true ->
      filter (lit (gpio_log w)) speed_leds
      = [nth (Z.to_nat (speed (g_Fan_state w) - 1)) speed_leds 0]).
Proof.
  intros Hr. destruct (reachable_mirror w Hr) as [_ [Hs Hb]].
  pose proof (reachable_valid_speed w Hr) as Hv.
  split; [split; assumption|].
  unfold speed_leds, speeds, leds, NUM_SPEED_LED in *.
  cbn [firstn map filter] in *.
  injection Hs as H1 H2 H3 H4.
  split; [|split].
  - intros Hoff. rewrite Hoff in *. cbn [andb] in *.
    rewrite H1, H2, H3, H4. reflexivity.
  - intros Hoff. rewrite Hoff, andb_false_r in *. cbn [andb] in *.
    rewrite H1, H2, H3, H4. reflexivity.
  - intros Hen Hon. rewrite Hen, Hon in *. cbn [andb] in *.
    rewrite H1, H2, H3, H4.
    unfold valid_speed, SPEED_1, SPEED_2, SPEED_3, SPEED_4 in *.
    assert (Hc : speed (g_Fan_state w) = 1 \/ speed (g_Fan_state w) = 2
                 \/ speed (g_Fan_state w) = 3 \/ speed (g_Fan_state w) = 4)
      by lia.
    destruct Hc as [-> | [-> | [-> | ->]]]; reflexivity.
Qed.

(** X2 at work: after boot and one press of the power button. *)
Lemma indicators_mirror_fan_state_witness : leds_mirror after_one_press.
Proof.
  exact (proj1 (indicators_mirror_fan_state after_one_press
                  reachable_after_one_press)).
Defined.

(** ** Which pins are written *)

Section Grows.

Lemma grows_refl (w : World) : grows w w.
Proof. exists []. split; [reflexivity | constructor]. Qed.

Lemma grows_trans (w1 w2 w3 : World) :
  grows w1 w2 -> grows w2 w3 -> grows w1 w3.
Proof.
  intros (m1 & H1 & F1) (m2 & H2 & F2). exists (m2 ++ m1). split.
  - rewrite H2, H1, app_assoc. reflexivity.
  - apply Forall_app. split; assumption.
Qed.

Lemma grows_gpio_set_level (p l : Z) (w : World) :
  handler_write (p, l) -> grows w (gpio_set_level p l w).
Proof.
  intros H. exists [(p, l)].
  split; [reflexivity | constructor; [exact H | constructor]].
Qed.

Lemma grows_same_log (w w' : World) : gpio_log w' = gpio_log w -> grows w w'.
Proof. intros H. exists []. split; [exact H | constructor]. Qed.

End Grows.

Ltac handler_write_tac :=
  split; [cbn; tauto | cbn; auto].

Lemma grows_speed_relays_cleared (w : World) :
  grows w (gpio_set_levels (firstn NUM_SPEED_RELAY relays) GPIO_HIGH w).
Proof.
  eexists. split; [apply gpio_set_levels_log|]. cbn.
  repeat (apply Forall_cons; [handler_write_tac|]). apply Forall_nil.
Qed.

Lemma grows_speed_leds_cleared (w : World) :
  grows w (gpio_set_levels (firstn NUM_SPEED_LED leds) GPIO_LOW w).
Proof.
  eexists. split; [apply gpio_set_levels_log|]. cbn.
  repeat (apply Forall_cons; [handler_write_tac|]). apply Forall_nil.
Qed.

Lemma grows_Relay_write_speed (sp : Z) (w : World) :
  grows w (Relay_write_speed sp w).
Proof.
  unfold Relay_write_speed.
  destruct (_ && _); [apply grows_refl|].
  repeat match goal with
         | |- context [if ?c then _ else _] => destruct c
         end;
    try apply grows_speed_relays_cleared;
    (eapply grows_trans; [apply grows_speed_relays_cleared|]);
    apply grows_gpio_set_level; handler_write_tac.
Qed.

Lemma grows_Relay_write_oscillate (osc : bool) (w : World) :
  grows w (Relay_write_oscillate osc w).
Proof.
  apply grows_gpio_set_level. destruct osc; handler_write_tac.
Qed.

Lemma grows_Led_write_speed (sp : Z) (w : World) :
  grows w (Led_write_speed sp w).
Proof.
  unfold Led_write_speed.
  destruct (negb _); [apply grows_refl|].
  repeat match goal with
         | |- context [if ?c then _ else _] => destruct c
         end;
    try apply grows_speed_leds_cleared;
    (eapply grows_trans; [apply grows_speed_leds_cleared|]);
    apply grows_gpio_set_level; handler_write_tac.
Qed.

Lemma grows_Led_write_enable (enable : bool) (w : World) :
  grows w (Led_write_enable enable w).
Proof.
  unfold Led_write_enable. destruct (negb _).
  - apply grows_trans with (set_Led_enable enable w);
      [apply grows_same_log; reflexivity | apply grows_speed_leds_cleared].
  - apply grows_same_log. reflexivity.
Qed.

Ltac grows_chain :=
  repeat match goal with
         | |- grows ?w ?w => apply grows_refl
         | |- grows _ (if ?c then _ else _) => destruct c
         | |- grows ?w (HomeKit_update_char ?v) =>
             apply grows_trans with v;
             [|apply grows_same_log; reflexivity]
         | |- grows ?w (set_on _ ?v) =>
             apply grows_trans with v;
             [|apply grows_same_log; reflexivity]
         | |- grows ?w (set_oscillate _ ?v) =>
             apply grows_trans with v;
             [|apply grows_same_log; reflexivity]
         | |- grows ?w (set_speed _ ?v) =>
             apply grows_trans with v;
             [|apply grows_same_log; reflexivity]
         | |- grows ?w (Relay_write_speed _ ?v) =>
             apply grows_trans with v; [|apply grows_Relay_write_speed]
         | |- grows ?w (Relay_write_oscillate _ ?v) =>
             apply grows_trans with v; [|apply grows_Relay_write_oscillate]
         | |- grows ?w (Led_write_enable _ ?v) =>
             apply grows_trans with v; [|apply grows_Led_write_enable]
         end.

Lemma grows_handle_homekit (e : Fan_event_t) (w : World) :
  grows w (handle_homekit e w).
Proof. unfold handle_homekit. destruct (id e); cbv zeta; grows_chain. Qed.

Lemma grows_handle_button (e : Fan_event_t) (w : World) :
  grows w (handle_button e w).
Proof. unfold handle_button. destruct (id e); cbv zeta; grows_chain. Qed.

Lemma grows_handle_remote (e : Fan_event_t) (w : World) :
  grows w (handle_remote e w).
Proof. unfold handle_remote. destruct (id e); cbv zeta; grows_chain. Qed.

Lemma grows_dispatch (e : Fan_event_t) (w : World) :
  grows w
    match source e with
    | SOURCE_HOMEKIT => handle_homekit e w
    | SOURCE_REMOTE => handle_remote e w
    | SOURCE_BUTTON => handle_button e w
    end.
Proof.
  destruct (source e);
    [apply grows_handle_homekit | apply grows_handle_remote
    | apply grows_handle_button].
Qed.

Lemma handler_write_output (x : Z * Z) :
  handler_write x ->
  fst x <> FAN_BUILTIN_LED_GPIO /\ output_write x.
Proof.
  destruct x as [p l]. intros [Hp Hl]. cbn in Hp. cbn [fst snd] in *.
  split.
  - unfold FAN_BUILTIN_LED_GPIO.
    repeat (destruct Hp as [<- | Hp]; [discriminate|]). contradiction.
  - split; [|exact Hl]. cbn.
    repeat (destruct Hp as [<- | Hp]; [tauto|]). contradiction.
Qed.

(** X3: a turn of the loop raises the built-in LED first and lowers it
    last; every write in between goes to a relay or to a speed LED, with a
    logic level, and none to the built-in LED.  Hence after boot, whatever
    the events, every write in the history of the pins is a logic level on
    one of the ten output pins: the inputs (infrared sensor, buttons) and
    the unused pins are never driven. *)
Theorem turn_brackets_builtin_led :
  (forall (e : Fan_event_t) (w : World),
      exists mid,
        gpio_log (Lasko_event_handler e w)
        = (FAN_BUILTIN_LED_GPIO, GPIO_LOW)
          :: mid ++ (FAN_BUILTIN_LED_GPIO, GPIO_HIGH) :: gpio_log w
        /\ Forall (fun x => handler_write x
                            /\ fst x <> FAN_BUILTIN_LED_GPIO) mid)
  /\ (forall events : list Fan_event_t,
        Forall output_write (gpio_log (run_events events boot))).
Proof.
  assert (Hturn : forall (e : Fan_event_t) (w : World),
             exists mid,
               gpio_log (Lasko_event_handler e w)
               = (FAN_BUILTIN_LED_GPIO, GPIO_LOW)
                 :: mid ++ (FAN_BUILTIN_LED_GPIO, GPIO_HIGH) :: gpio_log w
               /\ Forall handler_write mid).
  { intros e w. unfold Lasko_event_handler. cbv zeta.
    set (w1 := Led_write_builtin true w).
    set (w2 := match source e with
               | SOURCE_HOMEKIT => handle_homekit e w1
               | SOURCE_REMOTE => handle_remote e w1
               | SOURCE_BUTTON => handle_button e w1
               end).
    destruct (grows_trans w1 w2 _ (grows_dispatch e w1)
                (grows_Led_write_speed
                   (if on (g_Fan_state w2) then speed (g_Fan_state w2)
                    else SPEED_OFF) w2)) as (mid & Hlog & Hmid).
    exists mid. split; [|exact Hmid].
    unfold Led_write_builtin at 1. cbn [gpio_set_level gpio_log].
    rewrite Hlog. reflexivity. }
  split.
  - intros e w. destruct (Hturn e w) as (mid & Hlog & Hmid).
    exists mid. split; [exact Hlog|].
    apply Forall_impl with (2 := Hmid). intros x Hx.
    split; [exact Hx | apply handler_write_output, Hx].
  - intros events. unfold run_events.
    assert (Hboot : Forall output_write (gpio_log boot)).
    { repeat (apply Forall_cons; [split; [cbn; tauto | cbn; auto]|]).
      apply Forall_nil. }
    revert Hboot. generalize boot.
    induction events as [|e events IH]; intros w Hw; [exact Hw|].
    cbn [fold_left]. apply IH.
    destruct (Hturn e w) as (mid & Hlog & Hmid). rewrite Hlog.
    apply Forall_cons; [split; [cbn; tauto | cbn; auto]|].
    apply Forall_app. split.
    + apply Forall_impl with (2 := Hmid). intros x Hx.
      apply handler_write_output, Hx.
    + apply Forall_cons; [split; [cbn; tauto | cbn; auto] | exact Hw].
Qed.

(** ** HomeKit: scaling and binning of the speed *)

Lemma HomeKit_speed_bin (z : Z) :
  exists a,
    HomeKit_write_event (write_rotation_speed z) = Some (homekit_speed a)
    /\ 0 <= a <= 4
    /\ (a = SPEED_OFF <-> z = 0)
    /\ (z < 0 -> a = SPEED_1)
    /\ (75 < z -> a = SPEED_4)
    /\ (0 < z <= 100 -> a = (z + 24) / 25).
Proof.
  unfold HomeKit_write_event, homekit_speed, SPEED_OFF, SPEED_1, SPEED_2,
    SPEED_3, SPEED_4.
  destruct (Z.eqb_spec 0 z) as [<- | Hz];
    [eexists; split; [reflexivity|]; cbv; intuition (try discriminate; lia)|].
  destruct (Z.leb_spec z 25);
    [exists 1; split; [reflexivity|]; repeat split; try lia;
     intros; apply Z.div_unique with (z + 24 - 25); lia|].
  destruct (Z.leb_spec z 50);
    [exists 2; split; [reflexivity|]; repeat split; try lia;
     intros; apply Z.div_unique with (z + 24 - 50); lia|].
  destruct (Z.leb_spec z 75);
    [exists 3; split; [reflexivity|]; repeat split; try lia;
     intros; apply Z.div_unique with (z + 24 - 75); lia|].
  exists 4; split; [reflexivity|]; repeat split; try lia.
  intros; apply Z.div_unique with (z + 24 - 100); lia.
Qed.

(** X4: the speed HomeKit is told and the speed it tells agree.  A stored
    speed of 1 to 4 is published as 25 times the speed, and a write of
    that value is binned back to the same speed.  In general a written
    value of 0 is binned to Off, 1 to 100 to the quarter it lies in
    (rounding up), anything above 100 to speed 4 and anything negative to
    speed 1; the bin is always one of Off and the four speeds. *)
Theorem homekit_speed_round_trip :
  (forall w : World,
      valid_speed (speed (g_Fan_state w)) ->
      exists v,
        hd_error (hap_log (HomeKit_update_char w)) = Some (speed_char, hap_f v)
        /\ HomeKit_write_event (write_rotation_speed v)
           = Some (homekit_speed (speed (g_Fan_state w))))
  /\ (forall z : Z,
        exists a,
          HomeKit_write_event (write_rotation_speed z)
          = Some (homekit_speed a)
          /\ 0 <= a <= 4
          /\ (a = SPEED_OFF <-> z = 0)
          /\ (z < 0 -> a = SPEED_1)
          /\ (75 < z -> a = SPEED_4)
          /\ (0 < z <= 100 -> a = (z + 24) / 25)).
Proof.
  split; [|exact HomeKit_speed_bin].
  intros w Hv. exists (25 * speed (g_Fan_state w)). split; [reflexivity|].
  unfold valid_speed, SPEED_1, SPEED_4 in Hv.
  assert (Hc : speed (g_Fan_state w) = 1 \/ speed (g_Fan_state w) = 2
               \/ speed (g_Fan_state w) = 3 \/ speed (g_Fan_state w) = 4)
    by lia.
  destruct Hc as [-> | [-> | [-> | ->]]]; reflexivity.
Qed.

(** X4 at work: speed 3 is published as 75, and 75 is binned to speed 3. *)
Lemma homekit_speed_round_trip_witness :
  exists v,
    hd_error (hap_log (HomeKit_update_char (boot_with (fan_on_at 3))))
    = Some (speed_char, hap_f v)
    /\ HomeKit_write_event (write_rotation_speed v) = Some (homekit_speed 3).
Proof.
  apply (proj1 homekit_speed_round_trip (boot_with (fan_on_at 3))).
  unfold valid_speed, SPEED_1, SPEED_4. cbn. lia.
Defined.

(** ** HomeKit: the write callback *)

Lemma HomeKit_write_callback_known (writes : list hap_write) :
  forall (events : list Fan_event_t) (rest : list hap_write)
         (st : write_effects),
    events_of writes events ->
    HomeKit_write_callback (writes ++ rest) st
    = HomeKit_write_callback rest
        {| write_status :=
             write_status st ++ repeat HAP_STATUS_SUCCESS (length writes);
           hap_updated := hap_updated st ++ writes;
           event_queue := enqueue_all events (event_queue st) |}.
Proof.
  induction writes as [|wr writes IH]; intros events rest st Hev.
  - inversion Hev; subst. cbn. rewrite !app_nil_r. destruct st; reflexivity.
  - inversion Hev as [|? e ? events' Hwr Hrest]; subst.
    cbn [app HomeKit_write_callback]. rewrite Hwr.
    rewrite (IH events' rest _ Hrest).
    cbn [write_status hap_updated event_queue length repeat enqueue_all
         fold_left].
    rewrite <- !app_assoc. reflexivity.
Qed.

(** X5: [HomeKit_write_callback] on a batch of writes.  If every write is
    to one of the three characteristics, it succeeds: each write gets the
    status success, is passed on to the HAP library, and its event is sent
    to the queue, in the order of the batch.  At the first write to another
    characteristic it stops and fails: that write gets the status "resource
    absent", the writes before it have been handled as above and their
    events stay sent, and the writes after it are not looked at, so they
    get no status and no event. *)
Theorem write_callback_stops_at_unknown :
  (forall (writes : list hap_write) (events : list Fan_event_t)
          (st : write_effects),
      events_of writes events ->
      HomeKit_write_callback writes st
      = (HAP_SUCCESS,
         {| write_status :=
              write_status st ++ repeat HAP_STATUS_SUCCESS (length writes);
            hap_updated := hap_updated st ++ writes;
            event_queue := enqueue_all events (event_queue st) |}))
  /\ (forall (writes rest : list hap_write) (events : list Fan_event_t)
             (st : write_effects),
        events_of writes events ->
        HomeKit_write_callback (writes ++ write_unknown :: rest) st
        = (HAP_FAIL,
           {| write_status :=
                write_status st ++ repeat HAP_STATUS_SUCCESS (length writes)
                ++ [HAP_STATUS_RES_ABSENT];
              hap_updated := hap_updated st ++ writes;
              event_queue := enqueue_all events (event_queue st) |}))
  /\ (forall (writes : list hap_write) (st : write_effects),
        fst (HomeKit_write_callback writes st) = HAP_FAIL
        <-> In write_unknown writes).
Proof.
  split; [|split].
  - intros writes events st Hev.
    rewrite <- (app_nil_r writes) at 1.
    rewrite (HomeKit_write_callback_known writes events [] st Hev).
    reflexivity.
  - intros writes rest events st Hev.
    rewrite (HomeKit_write_callback_known writes events _ st Hev).
    cbn [HomeKit_write_callback HomeKit_write_event write_status hap_updated
         event_queue].
    rewrite <- app_assoc. reflexivity.
  - intros writes. induction writes as [|wr writes IH]; intros st.
    + cbn. split; [discriminate | contradiction].
    + cbn [HomeKit_write_callback In].
      destruct wr as [b | b | z | ]; cbn [HomeKit_write_event];
        try (rewrite IH; split;
             [auto | intros [H | H]; [discriminate | exact H]]).
      cbn. split; auto.
Qed.

(** X5 at work: a power write, then a write to an unknown characteristic,
    then a speed write, with an empty queue. *)
Lemma write_callback_stops_at_unknown_witness :
  HomeKit_write_callback
    ([write_on true] ++ write_unknown :: [write_rotation_speed 50])
    {| write_status := []; hap_updated := []; event_queue := [] |}
  = (HAP_FAIL,
     {| write_status := [HAP_STATUS_SUCCESS; HAP_STATUS_RES_ABSENT];
        hap_updated := [write_on true];
        event_queue := [homekit_power true] |}).
Proof.
  apply (proj1 (proj2 write_callback_stops_at_unknown) [write_on true]
           [write_rotation_speed 50] [homekit_power true]).
  repeat constructor.
Defined.

Section FanRule.

Lemma Lasko_event_handler_state (e : Fan_event_t) (w : World) :
  g_Fan_state (Lasko_event_handler e w)
  = g_Fan_state
      match source e with
      | SOURCE_HOMEKIT => handle_homekit e (Led_write_builtin true w)
      | SOURCE_REMOTE => handle_remote e (Led_write_builtin true w)
      | SOURCE_BUTTON => handle_button e (Led_write_builtin true w)
      end.
Proof.
  unfold Lasko_event_handler. cbv zeta.
  unfold Led_write_builtin at 1. cbn [gpio_set_level g_Fan_state].
  apply Led_write_speed_state.
Qed.

Lemma handle_homekit_rule (e : Fan_event_t) (w : World) :
  source e = SOURCE_HOMEKIT ->
  g_Fan_state (handle_homekit e w) = fan_rule (g_Fan_state w) e.
Proof.
  intros Hsrc. unfold fan_rule. rewrite Hsrc.
  destruct w as [[o osc s] led glog hlog]. unfold handle_homekit.
  destruct (id e); cbn [g_Fan_state on oscillate speed]; try reflexivity.
  - destruct (arg e =? 0), o; cbn [negb eqb]; try reflexivity;
      unfold set_on, Relay_write_oscillate;
      cbn [set_Fan_state g_Fan_state gpio_set_level];
      rewrite Relay_write_speed_state; reflexivity.
  - destruct o; reflexivity.
  - unfold SPEED_OFF. rewrite (Z.eqb_sym 0 (arg e)).
    destruct (arg e =? 0); [reflexivity|].
    unfold set_speed. cbn [set_Fan_state g_Fan_state].
    destruct o; [rewrite Relay_write_speed_state|]; reflexivity.
Qed.

Lemma handle_button_rule (e : Fan_event_t) (w : World) :
  source e = SOURCE_BUTTON ->
  valid_speed (speed (g_Fan_state w)) ->
  g_Fan_state (handle_button e w) = fan_rule (g_Fan_state w) e.
Proof.
  intros Hsrc Hv. unfold fan_rule. rewrite Hsrc.
  destruct w as [[o osc s] led glog hlog].
  cbn [g_Fan_state on oscillate speed] in *.
  unfold valid_speed, SPEED_1, SPEED_4 in Hv.
  assert (Hc : s = 1 \/ s = 2 \/ s = 3 \/ s = 4) by lia.
  unfold handle_button. rewrite HomeKit_update_char_state.
  destruct (id e); try reflexivity.
  - destruct Hc as [-> | [-> | [-> | ->]]]; destruct o; reflexivity.
  - destruct o; reflexivity.
Qed.

Lemma handle_remote_rule (e : Fan_event_t) (w : World) :
  source e = SOURCE_REMOTE ->
  valid_speed (speed (g_Fan_state w)) ->
  g_Fan_state (handle_remote e w) = fan_rule (g_Fan_state w) e.
Proof.
  intros Hsrc Hv. unfold fan_rule. rewrite Hsrc.
  destruct w as [[o osc s] led glog hlog].
  cbn [g_Fan_state on oscillate speed] in *.
  unfold valid_speed, SPEED_1, SPEED_4 in Hv.
  assert (Hc : s = 1 \/ s = 2 \/ s = 3 \/ s = 4) by lia.
  unfold handle_remote. rewrite HomeKit_update_char_state.
  destruct (id e).
  - unfold set_on, Relay_write_oscillate.
    cbn [set_Fan_state g_Fan_state gpio_set_level on oscillate speed].
    rewrite Relay_write_speed_state. reflexivity.
  - destruct o; reflexivity.
  - destruct led; reflexivity.
  - destruct Hc as [-> | [-> | [-> | ->]]]; destruct o; reflexivity.
  - destruct led; reflexivity.
Qed.

Lemma Lasko_rule_homekit (e : Fan_event_t) (w : World) :
  source e = SOURCE_HOMEKIT ->
  g_Fan_state (Lasko_event_handler e w) = fan_rule (g_Fan_state w) e.
Proof.
  intros Hsrc. rewrite Lasko_event_handler_state, Hsrc.
  exact (handle_homekit_rule e (Led_write_builtin true w) Hsrc).
Qed.

Lemma Lasko_rule_valid (e : Fan_event_t) (w : World) :
  valid_speed (speed (g_Fan_state w)) ->
  g_Fan_state (Lasko_event_handler e w) = fan_rule (g_Fan_state w) e.
Proof.
  intros Hv. rewrite Lasko_event_handler_state.
  destruct (source e) eqn:Hsrc.
  - exact (handle_homekit_rule e (Led_write_builtin true w) Hsrc).
  - exact (handle_remote_rule e (Led_write_builtin true w) Hsrc Hv).
  - exact (handle_button_rule e (Led_write_builtin true w) Hsrc Hv).
Qed.

End FanRule.

(** X6: the stored fan state after a turn of the loop is a function of the
    stored state before it and of the command alone: the pins, the LED flag
    and the histories play no part.  For a stored speed of 1 to 4 it is
    given by the transition table [fan_rule]; for a command of HomeKit this
    holds whatever is stored. *)
Theorem fan_state_follows_rule (e : Fan_event_t) (w : World) :
  (source e = SOURCE_HOMEKIT ->
   g_Fan_state (Lasko_event_handler e w) = fan_rule (g_Fan_state w) e)
  /\ (valid_speed (speed (g_Fan_state w)) ->
      g_Fan_state (Lasko_event_handler e w) = fan_rule (g_Fan_state w) e)
  /\ (forall w' : World,
        g_Fan_state w' = g_Fan_state w ->
        valid_speed (speed (g_Fan_state w)) ->
        g_Fan_state (Lasko_event_handler e w')
        = g_Fan_state (Lasko_event_handler e w)).
Proof.
  split; [apply Lasko_rule_homekit|]. split; [apply Lasko_rule_valid|].
  intros w' Heq Hv.
  rewrite (Lasko_rule_valid e w Hv), Lasko_rule_valid, Heq; [reflexivity|].
  rewrite Heq. exact Hv.
Qed.

(** X6 at work: the first press of the power button after boot. *)
Lemma fan_state_follows_rule_witness :
  g_Fan_state (Lasko_event_handler (button_event ID_POWER) boot)
  = fan_rule (g_Fan_state boot) (button_event ID_POWER).
Proof.
  apply (proj1 (proj2 (fan_state_follows_rule (button_event ID_POWER) boot))).
  exact (reachable_valid_speed boot reachable_boot).
Defined.

(** ** HomeKit: redundant and reordered commands *)

Lemma Relay_write_speed_same (sp : Z) (w : World) :
  speed (g_Fan_state w) = sp -> on (g_Fan_state w) = true ->
  Relay_write_speed sp w = w.
Proof.
  intros Hs Ho. unfold Relay_write_speed. rewrite Hs, Ho, Z.eqb_refl.
  reflexivity.
Qed.

(** X7: a command of HomeKit that comes twice does what it does once.  For
    a power or a speed command the second copy changes nothing at all: no
    state, no pin write.  For an oscillation command the second copy
    changes neither the fan state nor the level of any pin.  The arguments
    are arbitrary. *)
Theorem homekit_commands_idempotent (a : Z) (w : World) :
  let power_cmd := {| source := SOURCE_HOMEKIT; id := ID_POWER; arg := a |} in
  let speed_cmd := {| source := SOURCE_HOMEKIT; id := ID_SPEED; arg := a |} in
  let swing_cmd :=
    {| source := SOURCE_HOMEKIT; id := ID_OSCILLATE; arg := a |} in
  handle_homekit power_cmd (handle_homekit power_cmd w)
  = handle_homekit power_cmd w
  /\ handle_homekit speed_cmd (handle_homekit speed_cmd w)
     = handle_homekit speed_cmd w
  /\ g_Fan_state (handle_homekit swing_cmd (handle_homekit swing_cmd w))
     = g_Fan_state (handle_homekit swing_cmd w)
  /\ (forall pin : Z,
        gpio_level
          (gpio_log (handle_homekit swing_cmd (handle_homekit swing_cmd w)))
          pin
        = gpio_level (gpio_log (handle_homekit swing_cmd w)) pin).
Proof.
  intros power_cmd speed_cmd swing_cmd.
  split; [|split; [|split]].
  - pose proof (handle_homekit_rule power_cmd w eq_refl) as Hrule.
    apply (f_equal on) in Hrule. cbn [fan_rule source id arg on] in Hrule.
    unfold handle_homekit at 1. cbn [id arg power_cmd]. fold power_cmd.
    rewrite Hrule, eqb_reflx. reflexivity.
  - destruct (Z.eqb_spec SPEED_OFF a) as [Hoff | Hon].
    + unfold handle_homekit, speed_cmd. cbn [id arg].
      apply Z.eqb_eq in Hoff. rewrite !Hoff. reflexivity.
    + pose proof (handle_homekit_rule speed_cmd w eq_refl) as Hrule.
      apply (f_equal speed) in Hrule.
      unfold fan_rule in Hrule. cbn [source id arg speed_cmd] in Hrule.
      assert (Hne : (a =? SPEED_OFF) = false)
        by (apply Z.eqb_neq; congruence).
      rewrite Hne in Hrule. cbn [speed] in Hrule.
      set (w1 := handle_homekit speed_cmd w) in *.
      unfold handle_homekit at 1. cbn [id arg speed_cmd].
      apply Z.eqb_neq in Hon. rewrite Hon.
      assert (Hw1 : (if on (g_Fan_state w1) then Relay_write_speed a w1
                     else w1) = w1).
      { destruct (on (g_Fan_state w1)) eqn:Ho; [|reflexivity].
        apply Relay_write_speed_same; assumption. }
      rewrite Hw1. destruct w1 as [[o1 osc1 s1] led1 glog1 hlog1].
      cbn [g_Fan_state speed] in Hrule. subst s1. reflexivity.
  - rewrite !(handle_homekit_rule swing_cmd) by reflexivity. reflexivity.
  - intros pin. destruct w as [[o osc s] led glog hlog].
    unfold handle_homekit, swing_cmd. cbn [id arg g_Fan_state on].
    destruct o; [|reflexivity].
    unfold Relay_write_oscillate, set_oscillate.
    cbn [set_Fan_state gpio_set_level gpio_log g_Fan_state on oscillate
         speed gpio_level].
    destruct (FAN_OSC_RELAY_GPIO =? pin); reflexivity.
Qed.

Lemma run_events_homekit_state (events : list Fan_event_t) :
  forall w : World,
    Forall (fun e => source e = SOURCE_HOMEKIT) events ->
    g_Fan_state (run_events events w)
    = fold_left fan_rule events (g_Fan_state w).
Proof.
  unfold run_events.
  induction events as [|e events IH]; intros w Hsrc; [reflexivity|].
  inversion Hsrc as [|? ? He Hrest]; subst. cbn [fold_left].
  rewrite (IH _ Hrest).
  rewrite (Lasko_rule_homekit e w He). reflexivity.
Qed.

Lemma run_events_reachable (events : list Fan_event_t) :
  forall w : World,
    reachable w -> Forall produced events -> reachable (run_events events w).
Proof.
  unfold run_events.
  induction events as [|e events IH]; intros w Hw Hp; [exact Hw|].
  inversion Hp; subst. cbn [fold_left].
  apply IH; [apply reachable_step|]; assumption.
Qed.

Lemma produced_homekit_power (v : bool) : produced (homekit_power v).
Proof. apply (produced_homekit (write_on v)). reflexivity. Qed.

Lemma produced_homekit_oscillate (v : bool) : produced (homekit_oscillate v).
Proof. apply (produced_homekit (write_swing_mode v)). reflexivity. Qed.

Lemma produced_homekit_speed (s : Z) :
  0 <= s <= 4 -> produced (homekit_speed s).
Proof.
  intros Hs. apply (produced_homekit (write_rotation_speed (25 * s))).
  assert (Hc : s = 0 \/ s = 1 \/ s = 2 \/ s = 3 \/ s = 4) by lia.
  destruct Hc as [-> | [-> | [-> | [-> | ->]]]]; reflexivity.
Qed.

(** X8: HomeKit sends a power, a speed and an oscillation command together
    in no fixed order; the order does not matter.  Whatever the state
    before, all six orders end with the fan state the three commands ask
    for: power and oscillation as commanded, the speed as commanded unless
    it is Off, which leaves the stored speed.  From a state the controller
    can be in, and for a speed HomeKit can send, all six orders also end
    with the relays and the indicators showing that state. *)
Theorem homekit_batch_order_irrelevant (v b : bool) (s : Z) (w : World) :
  let batch :=
    orders3 (homekit_power v) (homekit_speed s) (homekit_oscillate b) in
  Forall
    (fun order =>
       g_Fan_state (run_events order w)
       = {| on := v; oscillate := b;
            speed := if s =? SPEED_OFF then speed (g_Fan_state w) else s |})
    batch
  /\ (reachable w -> 0 <= s <= 4 ->
      Forall
        (fun order =>
           relays_mirror (run_events order w)
           /\ leds_mirror (run_events order w))
        batch).
Proof.
  intros batch. split.
  - assert (Hsrc : forall order, In order batch ->
               Forall (fun e => source e = SOURCE_HOMEKIT) order).
    { intros order Hin. cbn in Hin.
      repeat (destruct Hin as [<- | Hin]; [repeat constructor|]).
      contradiction. }
    apply Forall_forall. intros order Hin.
    rewrite (run_events_homekit_state order w (Hsrc order Hin)).
    destruct (g_Fan_state w) as [o osc s0]. cbn [speed].
    cbn in Hin.
    repeat (destruct Hin as [<- | Hin];
            [cbn [fold_left]; unfold fan_rule;
             cbn [source id arg homekit_power homekit_speed
                  homekit_oscillate on oscillate speed];
             destruct (s =? SPEED_OFF); destruct v, b; reflexivity|]).
    contradiction.
  - intros Hw Hs. apply Forall_forall. intros order Hin.
    apply reachable_mirror, run_events_reachable; [exact Hw|].
    pose proof (produced_homekit_power v).
    pose proof (produced_homekit_oscillate b).
    pose proof (produced_homekit_speed s Hs).
    cbn in Hin.
    repeat (destruct Hin as [<- | Hin]; [repeat constructor; assumption|]).
    contradiction.
Qed.

(** X8 at work: turning the fan on at speed 2 with oscillation, right after
    boot, power command first. *)
Lemma homekit_batch_order_irrelevant_witness :
  Forall
    (fun order =>
       relays_mirror (run_events order boot)
       /\ leds_mirror (run_events order boot))
    (orders3 (homekit_power true) (homekit_speed 2) (homekit_oscillate true)).
Proof.
  apply (proj2 (homekit_batch_order_irrelevant true true 2 boot)).
  - exact reachable_boot.
  - lia.
Defined.

(** ** What HomeKit is told *)

Section HapFrame.

Variable w : World.

Lemma gpio_set_levels_hap (pins : list Z) (level : Z) :
  hap_log (gpio_set_levels pins level w) = hap_log w.
Proof.
  unfold gpio_set_levels. revert w.
  induction pins as [|p pins IH]; intros w0; simpl; [reflexivity|].
  now rewrite IH.
Qed.

Lemma Relay_write_speed_hap (sp : Z) :
  hap_log (Relay_write_speed sp w) = hap_log w.
Proof.
  unfold Relay_write_speed.
  repeat match goal with |- context [if ?c then _ else _] => destruct c end;
    reflexivity.
Qed.

Lemma Led_write_speed_hap (sp : Z) :
  hap_log (Led_write_speed sp w) = hap_log w.
Proof.
  unfold Led_write_speed.
  repeat match goal with |- context [if ?c then _ else _] => destruct c end;
    reflexivity.
Qed.

Lemma Led_write_enable_hap (enable : bool) :
  hap_log (Led_write_enable enable w) = hap_log w.
Proof. unfold Led_write_enable. destruct enable; reflexivity. Qed.

Lemma handle_homekit_hap (e : Fan_event_t) :
  hap_log (handle_homekit e w) = hap_log w.
Proof.
  unfold handle_homekit.
  destruct (id e); cbv zeta;
    repeat match goal with
           | |- context [if ?c then _ else _] => destruct c
           end;
    unfold set_on, set_oscillate, set_speed, Relay_write_oscillate;
    cbn [set_Fan_state hap_log gpio_set_level];
    rewrite ?Relay_write_speed_hap; reflexivity.
Qed.

Lemma handle_button_hap (e : Fan_event_t) :
  hap_log (handle_button e w)
  = published (g_Fan_state (handle_button e w)) (hap_log w).
Proof.
  unfold handle_button. cbv zeta.
  set (w' := match id e with ID_POWER => _ | _ => _ end).
  assert (Hw' : hap_log w' = hap_log w).
  { subst w'.
    destruct (id e); cbv zeta;
      repeat match goal with
             | |- context [if ?c then _ else _] => destruct c
             end;
      unfold set_on, set_oscillate, set_speed, Relay_write_oscillate;
      cbn [set_Fan_state hap_log gpio_set_level];
      rewrite ?Relay_write_speed_hap; reflexivity. }
  rewrite <- Hw'. reflexivity.
Qed.

Lemma handle_remote_hap (e : Fan_event_t) :
  hap_log (handle_remote e w)
  = published (g_Fan_state (handle_remote e w)) (hap_log w).
Proof.
  unfold handle_remote. cbv zeta.
  set (w' := match id e with ID_POWER => _ | _ => _ end).
  assert (Hw' : hap_log w' = hap_log w).
  { subst w'.
    destruct (id e); cbv zeta; rewrite ?Led_write_enable_hap;
      repeat match goal with
             | |- context [if ?c then _ else _] => destruct c
             end;
      unfold set_on, set_oscillate, set_speed, Relay_write_oscillate;
      cbn [set_Fan_state hap_log gpio_set_level];
      rewrite ?Relay_write_speed_hap; reflexivity. }
  rewrite <- Hw'. reflexivity.
Qed.

End HapFrame.

(** X9: what the loop tells HomeKit.  After a command of the button or of
    the remote, whatever it is, the three values of the resulting fan state
    are published, in the order power, oscillation, speed, with the speed
    scaled by 25; this also happens for a command that changes nothing.
    After a command of HomeKit nothing is published.  From a state the
    controller can be in, the speed published is 25, 50, 75 or 100, also
    while the fan is off. *)
Theorem state_published_after_hardware_commands (e : Fan_event_t)
    (w : World) :
  hap_log (Lasko_event_handler e w)
  = match source e with
    | SOURCE_HOMEKIT => hap_log w
    | SOURCE_REMOTE | SOURCE_BUTTON =>
        published (g_Fan_state (Lasko_event_handler e w)) (hap_log w)
    end
  /\ (reachable w -> produced e -> source e <> SOURCE_HOMEKIT ->
      exists k,
        valid_speed k
        /\ hd_error (hap_log (Lasko_event_handler e w))
           = Some (speed_char, hap_f (25 * k))).
Proof.
  assert (Hlog : hap_log (Lasko_event_handler e w)
                 = match source e with
                   | SOURCE_HOMEKIT => hap_log w
                   | SOURCE_REMOTE | SOURCE_BUTTON =>
                       published (g_Fan_state (Lasko_event_handler e w))
                         (hap_log w)
                   end).
  { rewrite Lasko_event_handler_state.
    unfold Lasko_event_handler. cbv zeta.
    unfold Led_write_builtin at 1. cbn [gpio_set_level hap_log].
    rewrite Led_write_speed_hap.
    destruct (source e).
    - exact (handle_homekit_hap (Led_write_builtin true w) e).
    - exact (handle_remote_hap (Led_write_builtin true w) e).
    - exact (handle_button_hap (Led_write_builtin true w) e). }
  split; [exact Hlog|].
  intros Hw He Hsrc.
  exists (speed (g_Fan_state (Lasko_event_handler e w))). split.
  - apply reachable_valid_speed, reachable_step; assumption.
  - rewrite Hlog. destruct (source e); [contradiction | reflexivity ..].
Qed.

(** X9 at work: the first press of the power button after boot. *)
Lemma state_published_after_hardware_commands_witness :
  exists k,
    valid_speed k
    /\ hd_error (hap_log (Lasko_event_handler (button_event ID_POWER) boot))
       = Some (speed_char, hap_f (25 * k)).
Proof.
  apply (proj2 (state_published_after_hardware_commands
                  (button_event ID_POWER) boot)).
  - exact reachable_boot.
  - exact produced_power_button.
  - discriminate.
Defined.

(** ** The power button, in general *)

(** X10: a press of the power button in any state the controller can be
    in.  With the fan off, the fan is turned on at the stored speed and
    with the stored oscillation, whatever they are: the relay of the stored
    speed is asserted and the oscillation relay is written the stored flag.
    With the fan on above speed 1, the speed goes down by one.  With the
    fan on at speed 1, the fan is turned off, the speed relays and the
    oscillation relay are released and speed 4 is stored. *)
Theorem power_button_resumes_and_cycles (w : World) :
  reachable w ->
  (on (g_Fan_state w) = false ->
   g_Fan_state (handle_button (button_event ID_POWER) w)
   = {| on := true; oscillate := oscillate (g_Fan_state w);
        speed := speed (g_Fan_state w) |}
   /\ gpio_log (handle_button (button_event ID_POWER) w)
      = oscillate_written (oscillate (g_Fan_state w))
          (speed_written (speed (g_Fan_state w)) (gpio_log w)))
  /\ (on (g_Fan_state w) = true -> speed (g_Fan_state w) <> SPEED_1 ->
      g_Fan_state (handle_button (button_event ID_POWER) w)
      = {| on := true; oscillate := oscillate (g_Fan_state w);
           speed := speed (g_Fan_state w) - 1 |}
      /\ gpio_log (handle_button (button_event ID_POWER) w)
         = oscillate_written (oscillate (g_Fan_state w))
             (speed_written (speed (g_Fan_state w) - 1) (gpio_log w)))
  /\ (on (g_Fan_state w) = true -> speed (g_Fan_state w) = SPEED_1 ->
      g_Fan_state (handle_button (button_event ID_POWER) w)
      = {| on := false; oscillate := oscillate (g_Fan_state w);
           speed := SPEED_4 |}
      /\ gpio_log (handle_button (button_event ID_POWER) w)
         = oscillate_written false (speed_off_written (gpio_log w))).
Proof.
  intros Hr. pose proof (reachable_valid_speed w Hr) as Hv.
  destruct (g_Fan_state w) as [o osc s] eqn:Hf. cbn [on oscillate speed] in *.
  destruct (button_power_step w o osc s Hf Hv) as (Hs & Hg & _).
  cbv zeta in Hs, Hg. unfold valid_speed, SPEED_1, SPEED_4, SPEED_OFF in *.
  split; [|split].
  - intros ->. cbn [negb Z.b2z] in Hs, Hg.
    replace (s - 1 + 1) with s in Hs, Hg by lia.
    assert (Hne : (s =? 0) = false) by (apply Z.eqb_neq; lia).
    rewrite Hne in Hs, Hg. split; assumption.
  - intros -> Hs1. cbn [negb Z.b2z] in Hs, Hg.
    replace (s - 1 + 0) with (s - 1) in Hs, Hg by lia.
    assert (Hne : (s - 1 =? 0) = false) by (apply Z.eqb_neq; lia).
    rewrite Hne in Hs, Hg. split; assumption.
  - intros -> ->. split; assumption.
Qed.

(** X10 at work: the remote turned the fan off at speed 2; the power button
    brings it back at speed 2. *)
Lemma power_button_resumes_and_cycles_witness :
  g_Fan_state
    (handle_button (button_event ID_POWER)
       (run_events [button_event ID_POWER; remote_event ID_SPEED;
                    remote_event ID_SPEED; remote_event ID_POWER] boot))
  = {| on := true; oscillate := false; speed := 2 |}.
Proof.
  refine (proj1 (proj1 (power_button_resumes_and_cycles
                          (run_events [button_event ID_POWER;
                                       remote_event ID_SPEED;
                                       remote_event ID_SPEED;
                                       remote_event ID_POWER] boot) _)
                   eq_refl)).
  repeat first [ apply reachable_boot
               | apply reachable_step
               | apply produced_power_button
               | apply (produced_remote IR_CODE_SPEED); reflexivity
               | apply (produced_remote IR_CODE_POWER); reflexivity ].
Defined.

(** ** The indicator flag *)

Section LedFlag.

Variable w : World.

Lemma gpio_set_levels_led (pins : list Z) (level : Z) :
  g_Led_enable (gpio_set_levels pins level w) = g_Led_enable w.
Proof.
  unfold gpio_set_levels. revert w.
  induction pins as [|p pins IH]; intros w0; simpl; [reflexivity|].
  now rewrite IH.
Qed.

Lemma Relay_write_speed_led (sp : Z) :
  g_Led_enable (Relay_write_speed sp w) = g_Led_enable w.
Proof.
  unfold Relay_write_speed.
  repeat match goal with |- context [if ?c then _ else _] => destruct c end;
    reflexivity.
Qed.

Lemma Led_write_speed_led (sp : Z) :
  g_Led_enable (Led_write_speed sp w) = g_Led_enable w.
Proof.
  unfold Led_write_speed.
  repeat match goal with |- context [if ?c then _ else _] => destruct c end;
    reflexivity.
Qed.

Lemma handle_homekit_led (e : Fan_event_t) :
  g_Led_enable (handle_homekit e w) = g_Led_enable w.
Proof.
  unfold handle_homekit.
  destruct (id e); cbv zeta;
    repeat match goal with
           | |- context [if ?c then _ else _] => destruct c
           end;
    unfold set_on, set_oscillate, set_speed, Relay_write_oscillate;
    cbn [set_Fan_state g_Led_enable gpio_set_level];
    rewrite ?Relay_write_speed_led; reflexivity.
Qed.

Lemma handle_button_led (e : Fan_event_t) :
  g_Led_enable (handle_button e w) = g_Led_enable w.
Proof.
  unfold handle_button, HomeKit_update_char. cbv zeta.
  cbn [hap_char_update_val g_Led_enable].
  destruct (id e); cbv zeta;
    repeat match goal with
           | |- context [if ?c then _ else _] => destruct c
           end;
    unfold set_on, set_oscillate, set_speed, Relay_write_oscillate;
    cbn [set_Fan_state g_Led_enable gpio_set_level];
    rewrite ?Relay_write_speed_led; reflexivity.
Qed.

Lemma handle_remote_led (e : Fan_event_t) :
  g_Led_enable (handle_remote e w)
  = match id e with
    | ID_TIME | ID_TEMPERATURE => negb (g_Led_enable w)
    | _ => g_Led_enable w
    end.
Proof.
  unfold handle_remote, HomeKit_update_char. cbv zeta.
  cbn [hap_char_update_val g_Led_enable].
  destruct (id e); cbv zeta;
    try (unfold Led_write_enable; destruct (g_Led_enable w); reflexivity);
    repeat match goal with
           | |- context [if ?c then _ else _] => destruct c
           end;
    unfold set_on, set_oscillate, set_speed, Relay_write_oscillate;
    cbn [set_Fan_state g_Led_enable gpio_set_level];
    rewrite ?Relay_write_speed_led; reflexivity.
Qed.

End LedFlag.

(** X11: the indicator flag.  Of all commands only the Time and the
    Temperature button of the remote change it, and each of them flips it.
    These two commands leave the fan state as it is and write no relay:
    when they disable the indicators the handler drives the four speed
    LEDs low, when they enable them it writes no pin at all (the loop
    lights the LED of the speed afterwards).  So two of them in a row, in
    any mix, restore the flag. *)
Theorem only_time_and_temperature_switch_indicators :
  (forall (e : Fan_event_t) (w : World),
      g_Led_enable (Lasko_event_handler e w)
      = if switches_indicators e then negb (g_Led_enable w)
        else g_Led_enable w)
  /\ (forall (e : Fan_event_t) (w : World),
        switches_indicators e = true ->
        g_Fan_state (handle_remote e w) = g_Fan_state w
        /\ gpio_log (handle_remote e w)
           = (if g_Led_enable w then speed_leds_cleared ++ gpio_log w
              else gpio_log w))
  /\ (forall (e e' : Fan_event_t) (w : World),
        switches_indicators e = true -> switches_indicators e' = true ->
        g_Led_enable (Lasko_event_handler e' (Lasko_event_handler e w))
        = g_Led_enable w).
Proof.
  assert (Hflag : forall (e : Fan_event_t) (w : World),
             g_Led_enable (Lasko_event_handler e w)
             = if switches_indicators e then negb (g_Led_enable w)
               else g_Led_enable w).
  { intros e w. unfold Lasko_event_handler, switches_indicators. cbv zeta.
    unfold Led_write_builtin at 1. cbn [gpio_set_level g_Led_enable].
    rewrite Led_write_speed_led.
    destruct (source e).
    - exact (handle_homekit_led (Led_write_builtin true w) e).
    - rewrite handle_remote_led. destruct (id e); reflexivity.
    - exact (handle_button_led (Led_write_builtin true w) e). }
  split; [exact Hflag|]. split.
  - intros e w Hsw. unfold switches_indicators in Hsw.
    destruct w as [f led glog hlog]. unfold handle_remote.
    destruct (source e); try discriminate.
    destruct (id e); try discriminate; destruct led; split; reflexivity.
  - intros e e' w He He'. rewrite !Hflag, He, He'. apply negb_involutive.
Qed.

(** X11 at work: Time, then Temperature, right after boot. *)
Lemma only_time_and_temperature_switch_indicators_witness :
  g_Led_enable
    (Lasko_event_handler (remote_event ID_TEMPERATURE)
       (Lasko_event_handler (remote_event ID_TIME) boot))
  = g_Led_enable boot.
Proof.
  exact (proj2 (proj2 only_time_and_temperature_switch_indicators)
           (remote_event ID_TIME) (remote_event ID_TEMPERATURE) boot
           eq_refl eq_refl).
Defined.

(** ** The decoder: windows *)

Section Windows.

(** The eleventh bit of a window that spells no command: the counters are
    reset and nothing is sent. *)
Lemma parse_symbol_last_bit_miss (symbol : rmt_symbol_word_t) (b : bool)
    (d : decoder) (v : Z) :
  classify symbol = Some b ->
  bit_index d = 10 ->
  ir_code d = v * 2 ^ 1 -> 0 <= v < 2 ^ 10 ->
  command_id (2 * v + Z.b2z b) = None ->
  exists sl,
    parse_symbol symbol d
    = inl {| ir_code := 0; bit_index := 0; queue := queue d;
             shift_log := sl |}.
Proof.
  intros Hc Hj Hcode Hv Hcmd.
  change (2 ^ 1) with 2 in Hcode.
  unfold parse_symbol. destruct b; cbn [Z.b2z] in *.
  - rewrite (classify_one symbol Hc). rewrite Hj.
    change (size_t (NUM_SYMBOL_EXPECTED - 10 - 1)) with 0.
    change (shift_defined 0) with true.
    cbn [ir_code bit_index queue shift_log]. rewrite Hcode.
    change (size_t (10 + 1)) with 11.
    change (NUM_SYMBOL_EXPECTED =? 11) with true. cbv iota.
    replace (v * 2) with (v * 2 ^ (0 + 1))
      by (change (2 ^ (0 + 1)) with 2; ring).
    rewrite lor_low_bit by lia. change (2 ^ 0) with 1.
    replace ((2 * v + 1) * 1) with (2 * v + 1) by ring.
    assert (Hsmall : uint16 (2 * v + 1) = 2 * v + 1)
      by (unfold uint16; apply Z.mod_small; lia).
    rewrite Hsmall. unfold is_command. rewrite Hcmd. cbn [negb].
    eexists. reflexivity.
  - destruct (classify_zero symbol Hc) as [H1 H0]. rewrite H1, H0.
    cbn [negb ir_code bit_index queue shift_log]. rewrite Hj, Hcode.
    change (size_t (10 + 1)) with 11.
    change (NUM_SYMBOL_EXPECTED =? 11) with true. cbv iota.
    replace (v * 2) with (2 * v + 0) by ring.
    unfold is_command. rewrite Hcmd. cbn [negb].
    eexists. reflexivity.
Qed.

(** A whole window of eleven bits, read with the counters at zero. *)
Lemma parse_symbols_window (bits : list bool)
    (symbols rest : list rmt_symbol_word_t) (d : decoder) :
  length bits = 11%nat ->
  map classify symbols = map Some bits ->
  ir_code d = 0 -> bit_index d = 0 ->
  exists sl,
    parse_symbols (symbols ++ rest) d
    = parse_symbols rest
        match command_id (bits_msb_first bits) with
        | Some i =>
            {| ir_code := bits_msb_first bits; bit_index := 11;
               queue := xQueueSend (queue d) (remote_event i);
               shift_log := sl |}
        | None =>
            {| ir_code := 0; bit_index := 0; queue := queue d;
               shift_log := sl |}
        end.
Proof.
  intros Hlen Hmap Hcode Hidx.
  do 11 (destruct bits as [|? bits]; [discriminate|]).
  destruct bits; [|discriminate].
  do 11 (destruct symbols as [|? symbols]; [discriminate|]).
  destruct symbols; [|discriminate].
  injection Hmap as H0 H1 H2 H3 H4 H5 H6 H7 H8 H9 H10.
  set (init := [b; b0; b1; b2; b3; b4; b5; b6; b7; b8]).
  destruct (parse_symbols_bits init
              [r; r0; r1; r2; r3; r4; r5; r6; r7; r8] (r9 :: rest) d 0 0)
    as [sl Hbits].
  - cbn [map init]. congruence.
  - exact Hidx.
  - lia.
  - cbn. lia.
  - rewrite Hcode. reflexivity.
  - cbn. lia.
  - cbn [app] in *. rewrite Hbits.
    change (11 - 0 - Z.of_nat (length init)) with 1.
    change (0 + Z.of_nat (length init)) with 10.
    cbn [parse_symbols].
    set (d10 := {| ir_code := bits_msb_first_from 0 init * 2 ^ 1;
                   bit_index := 10; queue := queue d; shift_log := sl |}).
    assert (Hv : 0 <= bits_msb_first_from 0 init < 2 ^ 10)
      by (apply (bits_msb_first_from_bound init 0 0); cbn; lia).
    change (bits_msb_first (b :: b0 :: b1 :: b2 :: b3 :: b4 :: b5 :: b6
                            :: b7 :: b8 :: b9 :: nil))
      with (2 * bits_msb_first_from 0 init + Z.b2z b9).
    destruct (command_id (2 * bits_msb_first_from 0 init + Z.b2z b9))
      as [i|] eqn:Hcmd.
    + destruct (parse_symbol_last_bit r9 b9 d10 _ i H10 eq_refl eq_refl Hv
                  Hcmd) as [sl' Hlast].
      rewrite Hlast. exists sl'. reflexivity.
    + destruct (parse_symbol_last_bit_miss r9 b9 d10 _ H10 eq_refl eq_refl Hv
                  Hcmd) as [sl' Hlast].
      rewrite Hlast. exists sl'. reflexivity.
Qed.

(** Windows that spell no command are passed over one after the other. *)
Lemma parse_symbols_misses (misses : list (list bool)) :
  forall (symbols rest : list rmt_symbol_word_t) (d : decoder),
    Forall (fun m => length m = 11%nat
                     /\ command_id (bits_msb_first m) = None) misses ->
    map classify symbols = map Some (concat misses) ->
    ir_code d = 0 -> bit_index d = 0 ->
    exists sl,
      parse_symbols (symbols ++ rest) d
      = parse_symbols rest
          {| ir_code := 0; bit_index := 0; queue := queue d;
             shift_log := sl |}.
Proof.
  induction misses as [|m misses IH];
    intros symbols rest d Hm Hmap Hcode Hidx.
  - destruct symbols; [|discriminate]. exists (shift_log d).
    destruct d as [c j q0 sl0]. cbn [ir_code bit_index] in Hcode, Hidx.
    subst c j. reflexivity.
  - apply Forall_cons_iff in Hm. destruct Hm as [[Hlen Hnone] Hrest].
    cbn [concat] in Hmap. rewrite map_app in Hmap.
    apply map_eq_app in Hmap.
    destruct Hmap as (s1 & s2 & -> & Hs1 & Hs2).
    rewrite <- app_assoc.
    destruct (parse_symbols_window m s1 (s2 ++ rest) d Hlen Hs1 Hcode Hidx)
      as [sl Hwin].
    rewrite Hwin, Hnone.
    destruct (IH s2 rest
                {| ir_code := 0; bit_index := 0; queue := queue d;
                   shift_log := sl |} Hrest Hs2 eq_refl eq_refl)
      as [sl' Hnext].
    exists sl'. rewrite Hnext. reflexivity.
Qed.

End Windows.

(** X12: a window that spells no command costs nothing but its eleven
    pairs.  If the pairs of a frame of 48 start with any number of windows
    of eleven bits none of which is a command, followed by eleven bits that
    spell a command, the counters are reset after each of the former and
    the command of the latter is sent, and nothing else is. *)
Theorem decoder_recovers_after_misses (misses : list (list bool))
    (hit : list bool) (symbols rest : list rmt_symbol_word_t)
    (q : list Fan_event_t) (i : Event_id) :
  Forall (fun m => length m = 11%nat
                   /\ command_id (bits_msb_first m) = None) misses ->
  length hit = 11%nat ->
  command_id (bits_msb_first hit) = Some i ->
  map classify symbols = map Some (concat misses ++ hit) ->
  length (symbols ++ rest) = 48%nat ->
  queue (snd (parse_ir_code (symbols ++ rest) q))
  = xQueueSend q (remote_event i).
Proof.
  intros Hm Hlen Hcmd Hmap H48.
  rewrite (parse_ir_code_full _ q H48).
  rewrite map_app in Hmap. apply map_eq_app in Hmap.
  destruct Hmap as (s1 & s2 & -> & Hs1 & Hs2).
  rewrite <- app_assoc.
  destruct (parse_symbols_misses misses s1 (s2 ++ rest) (decoder_init q)
              Hm Hs1 eq_refl eq_refl) as [sl Hskip].
  rewrite Hskip.
  destruct (parse_symbols_window hit s2 rest
              {| ir_code := 0; bit_index := 0;
                 queue := queue (decoder_init q); shift_log := sl |}
              Hlen Hs2 eq_refl eq_refl) as [sl' Hwin].
  rewrite Hwin, Hcmd. rewrite parse_symbols_after_command.
  - reflexivity.
  - cbn. lia.
  - cbn [bit_index]. rewrite !length_app in H48. lia.
Qed.

(** X12 at work: eleven logic zeros, which spell no command, then the Speed
    code, then padding. *)
Lemma decoder_recovers_after_misses_witness :
  queue
    (snd (parse_ir_code
            (pairs_of_bits (repeat false 11 ++ bits_of_code IR_CODE_SPEED)
             ++ repeat logic_zero 26) []))
  = [remote_event ID_SPEED].
Proof.
  apply (decoder_recovers_after_misses [repeat false 11]
           (bits_of_code IR_CODE_SPEED)
           (pairs_of_bits (repeat false 11 ++ bits_of_code IR_CODE_SPEED))
           (repeat logic_zero 26) [] ID_SPEED).
  - constructor; [split; reflexivity | constructor].
  - reflexivity.
  - reflexivity.
  - reflexivity.
  - reflexivity.
Defined.

(** ** The decoder: what a frame can do *)

Section Phases.





End Phases.




(** ** The decoder: the two templates *)

(** X15: the two bit templates cannot be confused.  No pair is both a
    logic zero and a logic one, so the order in which [parse_ir_code] tries
    them is immaterial; a pair at the nominal timing of a bit is that bit,
    and so is any pair whose two durations are each less than 200 us off. *)
Theorem templates_do_not_overlap (symbol : rmt_symbol_word_t) :
  ~ (parse_logic0 symbol = true /\ parse_logic1 symbol = true)
  /\ (classify symbol = Some false <-> parse_logic0 symbol = true)
  /\ (classify symbol = Some true <-> parse_logic1 symbol = true)
  /\ (classify symbol = None
      <-> parse_logic0 symbol = false /\ parse_logic1 symbol = false)
  /\ (forall b : bool,
        strictly_within_tolerance (duration0 symbol)
          (duration0 (if b then logic_one else logic_zero)) ->
        strictly_within_tolerance (duration1 symbol)
          (duration1 (if b then logic_one else logic_zero)) ->
        classify symbol = Some b).
Proof.
  assert (Hex : ~ (parse_logic0 symbol = true /\ parse_logic1 symbol = true)).
  { unfold parse_logic0, parse_logic1. rewrite !andb_true_iff.
    rewrite !check_in_range_short, !check_in_range_long. lia. }
  assert (H1 : forall b : bool,
             strictly_within_tolerance (duration0 symbol)
                           (duration0 (if b then logic_one else logic_zero)) ->
                         strictly_within_tolerance (duration1 symbol)
                           (duration1 (if b then logic_one else logic_zero)) ->
                         (if b then parse_logic1 symbol
                          else parse_logic0 symbol) = true).
  { intros b. unfold strictly_within_tolerance, DURATION_ERROR_MARGIN.
    destruct b; cbn [duration0 duration1 logic_one logic_zero];
      unfold DURATION_SHORT, DURATION_LONG; intros Ha Hb;
      [unfold parse_logic1 | unfold parse_logic0];
      rewrite andb_true_iff, ?check_in_range_short, ?check_in_range_long;
      lia. }
  assert (Hlast : forall b : bool,
             strictly_within_tolerance (duration0 symbol)
               (duration0 (if b then logic_one else logic_zero)) ->
             strictly_within_tolerance (duration1 symbol)
               (duration1 (if b then logic_one else logic_zero)) ->
             classify symbol = Some b).
  { intros b Ha Hb. pose proof (H1 b Ha Hb) as Hc. unfold classify.
    destruct b.
    - rewrite Hc. reflexivity.
    - destruct (parse_logic1 symbol) eqn:Hone; [|rewrite Hc; reflexivity].
      exfalso. apply Hex. auto. }
  split; [exact Hex|].
  split; [|split; [|split; [|exact Hlast]]]; unfold classify;
    destruct (parse_logic1 symbol) eqn:Hone,
             (parse_logic0 symbol) eqn:Hzero;
    intuition congruence.
Qed.

(** X15 at work: a pair 150 us short on the mark and 150 us long on the
    space of a logic one is a logic one. *)
Lemma templates_do_not_overlap_witness :
  classify {| duration0 := 250; duration1 := 1350 |} = Some true.
Proof.
  apply (proj2 (proj2 (proj2 (proj2 (templates_do_not_overlap
                                        {| duration0 := 250;
                                           duration1 := 1350 |})))) true).
  - unfold strictly_within_tolerance, DURATION_ERROR_MARGIN. cbn. lia.
  - unfold strictly_within_tolerance, DURATION_ERROR_MARGIN. cbn. lia.
Defined.

(** ** The prototype's callbacks *)

Lemma fan_write_loop_spec (write_data : list lasko_write) :
  forall (ret : hap_ret) (st : lasko_effects),
    fan_write_loop write_data ret st
    = (if existsb (fun wr => match lasko_status_of wr with
                             | LASKO_STATUS_VAL_INVALID => true
                             | _ => false
                             end) write_data
       then HAP_FAIL else ret,
       {| lasko_status := lasko_status st ++ map lasko_status_of write_data;
          lasko_updated := lasko_updated st ++ filter lasko_stored write_data
       |}).
Proof.
  induction write_data as [|wr rest IH]; intros ret st.
  - cbn. rewrite !app_nil_r. destruct st; reflexivity.
  - cbn [fan_write_loop existsb map filter].
    destruct wr as [b | i | v | ]; cbn [lasko_status_of lasko_stored].
    + rewrite IH. cbn [lasko_status lasko_updated orb].
      rewrite <- !app_assoc. reflexivity.
    + destruct (i >? 1); rewrite IH; cbn [lasko_status lasko_updated orb negb];
        rewrite <- ?app_assoc; try reflexivity.
      destruct (existsb _ rest); reflexivity.
    + destruct (0 =? v); rewrite IH; cbn [lasko_status lasko_updated orb];
        rewrite <- ?app_assoc; reflexivity.
    + rewrite IH. cbn [lasko_status lasko_updated orb].
      rewrite <- ?app_assoc. reflexivity.
Qed.

(** X16: [fan_write] of the prototype on a batch of writes.  Every write
    gets a status, also after a failure: success for a power write, for a
    direction of at most 1 (negative ones included) and for every speed
    write whatever its value; "value invalid" for a direction above 1;
    "resource absent" for any other characteristic.  Only power writes and
    accepted direction writes are passed on to the HAP library, speed
    writes never.  The call fails exactly when some direction is above 1;
    an unknown characteristic does not make it fail. *)
Theorem fan_write_statuses (write_data : list lasko_write) :
  lasko_status (snd (fan_write write_data))
  = map lasko_status_of write_data
  /\ lasko_updated (snd (fan_write write_data))
     = filter lasko_stored write_data
  /\ (fst (fan_write write_data) = HAP_FAIL
      <-> exists i, In (lasko_rotation_direction i) write_data /\ 1 < i)
  /\ (fst (fan_write write_data) = HAP_FAIL
      <-> In LASKO_STATUS_VAL_INVALID
            (lasko_status (snd (fan_write write_data)))).
Proof.
  unfold fan_write. rewrite fan_write_loop_spec. cbn [fst snd lasko_status
    lasko_updated app].
  split; [reflexivity|]. split; [reflexivity|].
  assert (Hex : existsb (fun wr => match lasko_status_of wr with
                                   | LASKO_STATUS_VAL_INVALID => true
                                   | _ => false
                                   end) write_data = true
                <-> exists i, In (lasko_rotation_direction i) write_data
                              /\ 1 < i).
  { rewrite existsb_exists. split.
    - intros (wr & Hin & Hst). destruct wr as [b | i | v | ];
        cbn in Hst; try discriminate.
      destruct (Z.gtb_spec i 1); [|discriminate]. exists i. auto.
    - intros (i & Hin & Hi). exists (lasko_rotation_direction i).
      split; [exact Hin|]. cbn.
      destruct (Z.gtb_spec i 1); [reflexivity | lia]. }
  assert (Hret : forall b : bool,
             (if b then HAP_FAIL else HAP_SUCCESS) = HAP_FAIL <-> b = true)
    by (intros [|]; split; auto; discriminate).
  rewrite !Hret, Hex. split; [reflexivity|].
  rewrite in_map_iff. split.
  - intros (i & Hin & Hi). exists (lasko_rotation_direction i).
    split; [|exact Hin]. cbn.
    destruct (Z.gtb_spec i 1); [reflexivity | lia].
  - intros (wr & Hst & Hin). destruct wr as [b | i | v | ];
      cbn in Hst; try discriminate.
    destruct (Z.gtb_spec i 1); [|discriminate]. exists i. auto.
Qed.

(** X17: [fan_read] of the prototype has a side effect.  A read of the
    rotation direction replaces the value by 0 if it was 1 and by 1
    otherwise, so the value read alternates from read to read: after a
    read it is 0 or 1, a second read undoes the first exactly when the
    value was 0 or 1 to begin with, and a third read gives what the first
    gave.  A read of any other characteristic leaves the value alone and
    writes no status.  The call never fails. *)
Theorem fan_read_toggles_direction (cur_val : Z) :
  let after v := snd (fst (fan_read true v)) in
  (after cur_val = 0 \/ after cur_val = 1)
  /\ (after (after cur_val) = cur_val <-> cur_val = 0 \/ cur_val = 1)
  /\ after (after (after cur_val)) = after cur_val
  /\ after cur_val <> cur_val
  /\ fan_read false cur_val = (HAP_SUCCESS, cur_val, None)
  /\ forall d : bool, fst (fst (fan_read d cur_val)) = HAP_SUCCESS.
Proof.
  cbv zeta. unfold fan_read. cbn [fst snd].
  destruct (Z.eqb_spec cur_val 1) as [E | H1].
  - rewrite E. cbn. repeat split; auto; try discriminate.
    intros [|]; reflexivity.
  - change (1 =? 1) with true. cbv iota. change (0 =? 1) with false.
    cbv iota.
    split; [auto|].
    split; [|split; [reflexivity|split; [congruence|split; [reflexivity|]]]].
    2: intros [|]; reflexivity.
    split; [intros <-; auto | intros [-> | ->]; [reflexivity | contradiction]].
Qed.

(** ** The buttons: how fast commands can come *)

Section Rate.

Lemma xQueueSend_length (q : list Fan_event_t) (e : Fan_event_t) :
  (length (xQueueSend q e) <= S (length q))%nat
  /\ (length q <= QUEUE_LENGTH -> length (xQueueSend q e) <= QUEUE_LENGTH)%nat.
Proof.
  unfold xQueueSend. destruct (Nat.ltb_spec (length q) QUEUE_LENGTH).
  - rewrite length_app. cbn. lia.
  - lia.
Qed.

(** Every accepted edge moves the clock on by a whole window at least, to
    the time of an edge. *)
Lemma accepted_count_clock (edges : list edge) :
  forall s : button_state,
    (accepted_count edges s = 0%nat
     /\ prev_time_us (run_edges edges s) = prev_time_us s)
    \/ (prev_time_us s
        + Z.of_nat (accepted_count edges s) * MIN_TIME_BETWEEN_PRESS
        <= prev_time_us (run_edges edges s)
        /\ exists e, In e edges /\ prev_time_us (run_edges edges s) = snd e).
Proof.
  unfold accepted_count, run_edges.
  induction edges as [|e edges IH]; intros s; [left; auto|].
  cbn [bounces fold_left filter].
  destruct (is_bounce (snd e) s) eqn:Hb; cbn [negb].
  - rewrite (interrupt_bounced e s Hb).
    destruct (IH s) as [[H0 Hc] | [Hc (e' & Hin & He')]]; [left; auto|].
    right. split; [exact Hc|]. exists e'. split; [right; exact Hin | exact He'].
  - pose proof (proj1 (is_bounce_false _ _) Hb) as Hwin.
    rewrite (interrupt_accepted e s Hb). cbn [length].
    set (s' := {| prev_time_us := snd e;
                  button_queue :=
                    xQueueSendFromISR (button_queue s)
                      (button_event (button_id (fst e))) |}).
    right. destruct (IH s') as [[H0 Hc] | [Hc (e' & Hin & He')]].
    + rewrite H0, Hc. cbn [s' prev_time_us]. split; [lia|].
      exists e. split; [left; reflexivity | reflexivity].
    + cbn [s' prev_time_us] in Hc. split; [lia|].
      exists e'. split; [right; exact Hin | exact He'].
Qed.

Lemma accepted_count_queue (edges : list edge) :
  forall s : button_state,
    (length (button_queue (run_edges edges s))
     <= length (button_queue s) + accepted_count edges s)%nat
    /\ (length (button_queue s) <= QUEUE_LENGTH ->
        length (button_queue (run_edges edges s)) <= QUEUE_LENGTH)%nat.
Proof.
  unfold accepted_count, run_edges.
  induction edges as [|e edges IH]; intros s; [cbn; lia|].
  cbn [bounces fold_left filter].
  destruct (is_bounce (snd e) s) eqn:Hb; cbn [negb].
  - rewrite (interrupt_bounced e s Hb). apply IH.
  - rewrite (interrupt_accepted e s Hb). cbn [length].
    set (s' := {| prev_time_us := snd e;
                  button_queue :=
                    xQueueSendFromISR (button_queue s)
                      (button_event (button_id (fst e))) |}).
    destruct (IH s') as [Hlen Hcap].
    destruct (xQueueSend_length (button_queue s)
                (button_event (button_id (fst e)))) as [H1 H2].
    cbn [s' button_queue] in *. unfold xQueueSendFromISR in *.
    split; [lia | auto].
Qed.

End Rate.

(** X18: the buttons cannot flood the queue.  Take any edges, on either
    button, none later than [latest].  Each accepted edge needs a whole
    debounce window after the clock, so the number of accepted edges times
    250 ms is at most the time from the clock to [latest] (none at all if
    [latest] is before the clock); the queue gains at most one event for
    each accepted edge and never holds more than its ten places. *)
Theorem button_commands_rate_limited (edges : list edge) (s : button_state)
    (latest : Z) :
  Forall (fun e => snd e <= latest) edges ->
  Z.of_nat (accepted_count edges s) * (250 * 1000)
  <= Z.max 0 (latest - prev_time_us s)
  /\ (length (button_queue (run_edges edges s))
      <= length (button_queue s) + accepted_count edges s)%nat
  /\ (length (button_queue s) <= QUEUE_LENGTH ->
      length (button_queue (run_edges edges s)) <= QUEUE_LENGTH)%nat.
Proof.
  intros Hlate. split; [|apply accepted_count_queue].
  change (250 * 1000) with MIN_TIME_BETWEEN_PRESS.
  destruct (accepted_count_clock edges s)
    as [[H0 _] | [Hc (e & Hin & He)]].
  - rewrite H0. cbn. lia.
  - rewrite Forall_forall in Hlate. specialize (Hlate e Hin). lia.
Qed.

(** X18 at work: of the three edges of the example at most two fit into
    the 600 ms after the clock. *)
Lemma button_commands_rate_limited_witness :
  Z.of_nat (accepted_count crossed_edges (Button_init 0 [])) * (250 * 1000)
  <= Z.max 0 (600000 - prev_time_us (Button_init 0 [])).
Proof.
  apply (button_commands_rate_limited crossed_edges (Button_init 0 [])
           600000).
  repeat constructor; cbn; lia.
Defined.
